(** * YMU: the settings store and the Lua script toggles

    A shallow embedding of [src/settings_manager.py] and
    [src/lua_manager.py], with the part of [src/paths.py] they import.

    Python objects that the code mutates in place (the settings documents)
    live in an explicit heap and are handed around by reference, so that the
    aliasing between the cache of [SettingsManager] and the [data] variable
    of [set_setting] is the one of the source.  A document is one object with
    the tree of its values; the values given to [set_setting] are JSON data
    of their own, not parts of a document.  The file system, the logger and
    the clock are an explicit environment carried in the same state. *)

From stdpp Require Import base strings list gmap sorting.
From Stdlib Require Import ZArith Lia Ascii.

Set Warnings "-register-all".

Open Scope string_scope.
Open Scope Z_scope.

(** ** JSON values

    What [json.load] returns and [json.dump] accepts: [None], [bool], numbers,
    [str], [list] and [dict] with [str] keys.  A [dict] keeps its insertion
    order, so it is an association list.  Numbers are carried as integers;
    no function of the two modules computes with them. *)

Inductive json : Type :=
| JNull
| JBool (b : bool)
| JNum (n : Z)
| JStr (s : string)
| JList (l : list json)
| JDict (d : list (string * json)).

Definition isinstance_dict (x : json) : bool :=
  match x with JDict _ => true | _ => false end.

(** [key in d] for a [dict]. *)
Fixpoint dict_get (d : list (string * json)) (key : string) : option json :=
  match d with
  | [] => None
  | (k, x) :: d' => if String.eqb k key then Some x else dict_get d' key
  end.

(** [d[key] = x] for a [dict]: an existing key keeps its position, a new key
    goes last. *)
Fixpoint dict_set (d : list (string * json)) (key : string) (x : json)
  : list (string * json) :=
  match d with
  | [] => [(key, x)]
  | (k, y) :: d' =>
      if String.eqb k key then (k, x) :: d' else (k, y) :: dict_set d' key x
  end.

(** ** Exceptions and results *)

Inductive exn : Type :=
| KeyError | TypeError | IndexError
| OSError | JSONDecodeError | UnicodeDecodeError.

Inductive result (A : Type) : Type :=
| Ok (a : A)
| Raise (e : exn).
Arguments Ok {A} a.
Arguments Raise {A} e.

Definition is_Ok {A} (r : result A) : bool :=
  match r with Ok _ => true | Raise _ => false end.

(** [value[key]]: only a [dict] can be subscripted by a [str]; a [list], a
    [str], a number, a [bool] and [None] all raise [TypeError]. *)
Definition getitem (value : json) (key : string) : result json :=
  match value with
  | JDict d =>
      match dict_get d key with
      | Some x => Ok x
      | None => Raise KeyError
      end
  | _ => Raise TypeError
  end.

(** [d[key] = x]: item assignment with a [str] key raises [TypeError] on
    everything but a [dict]. *)
Definition setitem (d : json) (key : string) (x : json) : result json :=
  match d with
  | JDict m => Ok (JDict (dict_set m key x))
  | _ => Raise TypeError
  end.

(** [key not in d or not isinstance(d[key], dict)].  On a [dict] this is a
    membership test and a lookup.  On anything else the expression, or the
    assignment [d[key] = {}] that follows it when it is true, raises
    [TypeError]: [None], numbers and [bool] are not iterable; a [str] or a
    [list] answers the membership test, and then either [d[key]] or
    [d[key] = {}] is a subscript by a [str]. *)
Definition not_in_or_not_dict (d : json) (key : string) : result bool :=
  match d with
  | JDict m =>
      match dict_get m key with
      | Some x => Ok (negb (isinstance_dict x))
      | None => Ok true
      end
  | _ => Raise TypeError
  end.

(** [key_path.split(".")] *)
Fixpoint split_dot (s : string) : list string :=
  match s with
  | EmptyString => [EmptyString]
  | String c s' =>
      if Ascii.eqb c "."%char then EmptyString :: split_dot s'
      else match split_dot s' with
           | [] => [String c EmptyString]
           | w :: ws => String c w :: ws
           end
  end.

(** The loop of [get_setting]:
<<
    for key in keys:
        value = value[key]
    return value
>> *)
Fixpoint traverse (value : json) (keys : list string) : result json :=
  match keys with
  | [] => Ok value
  | key :: keys' =>
      match getitem value key with
      | Ok v => traverse v keys'
      | Raise e => Raise e
      end
  end.

(** The body of the [try] of [set_setting], on the tree under [d]:
<<
    for i, key in enumerate(keys[:-1]):
        if key not in d or not isinstance(d[key], dict):
            d[key] = {}
        d = d[key]
    d[keys[-1]] = value
>>
    The loop mutates in place; here the mutated child is put back in the slot
    it was taken from.  [keys[-1]] of an empty list raises [IndexError]. *)
Fixpoint assign (d : json) (keys : list string) (value : json) : result json :=
  match keys with
  | [] => Raise IndexError
  | key :: rest =>
      match rest with
      | [] => setitem d key value
      | _ :: _ =>
          match not_in_or_not_dict d key with
          | Raise e => Raise e
          | Ok fresh =>
              match (if fresh then setitem d key (JDict []) else Ok d) with
              | Raise e => Raise e
              | Ok d1 =>
                  match getitem d1 key with
                  | Raise e => Raise e
                  | Ok child =>
                      match assign child rest value with
                      | Raise e => Raise e
                      | Ok child' => setitem d1 key child'
                      end
                  end
              end
          end
      end
  end.

(** ** paths.py

    The two settings files live under [%APPDATA%\YimMenu] and
    [%APPDATA%\YimMenuV2]; [dot_tmp p] is [p + ".tmp"]. *)

Inductive path : Type :=
| YIMMENU_SETTINGS_FILE_PATH
| YIMMENUV2_SETTINGS_FILE_PATH
| dot_tmp (p : path).

Global Instance path_eq_dec : EqDecision path.
Proof. solve_decision. Defined.

Fixpoint path_code (p : path) : nat * bool :=
  match p with
  | YIMMENU_SETTINGS_FILE_PATH => (O, false)
  | YIMMENUV2_SETTINGS_FILE_PATH => (O, true)
  | dot_tmp q => let '(n, b) := path_code q in (S n, b)
  end.

Fixpoint path_decode (n : nat) (b : bool) : path :=
  match n with
  | O => if b then YIMMENUV2_SETTINGS_FILE_PATH else YIMMENU_SETTINGS_FILE_PATH
  | S n' => dot_tmp (path_decode n' b)
  end.

Global Instance path_countable : Countable path.
Proof.
  refine (inj_countable' path_code (fun nb => path_decode nb.1 nb.2) _).
  intros p. induction p as [| |q IH]; simpl; try reflexivity.
  destruct (path_code q) as [n b]; simpl in *. by rewrite IH.
Defined.

(** ** The state: interpreter heap, manager instance, environment *)

(** The keys of [SETTINGS_FILE_PATHS], [_settings_cache] and
    [_last_modified]: the strings ["v1"] and ["v2"]. *)
Inductive version_key : Type := v1 | v2.

Global Instance version_key_eq_dec : EqDecision version_key.
Proof. solve_decision. Defined.

(** A Python [dict] with exactly the keys ["v1"] and ["v2"]. *)
Record per_version (A : Type) : Type := PerVersion { at_v1 : A; at_v2 : A }.
Arguments PerVersion {A} _ _.
Arguments at_v1 {A} _.
Arguments at_v2 {A} _.

Definition pv_get {A} (d : per_version A) (k : version_key) : A :=
  match k with v1 => at_v1 d | v2 => at_v2 d end.

Definition pv_set {A} (d : per_version A) (k : version_key) (x : A)
  : per_version A :=
  match k with
  | v1 => PerVersion x (at_v2 d)
  | v2 => PerVersion (at_v1 d) x
  end.

(** A reference to a Python object: [None] is Python's [None], [Some l] the
    object at address [l] of the heap. *)
Definition loc := nat.
Definition pyref := option loc.

(** What reading a file as UTF-8 JSON gives: a value, a syntax error
    ([json.JSONDecodeError], also raised on a byte-order mark), or bytes that
    are not UTF-8 ([UnicodeDecodeError], a [ValueError] that is not a
    [JSONDecodeError]). *)
Inductive content : Type :=
| Json (j : json)
| BadSyntax
| BadEncoding.

Record file : Type := File { f_content : content; f_mtime : Z }.

Inductive io_event : Type :=
| io_open_r (p : path)
| io_open_w (p : path)
| io_move (src dst : path).

Inductive level : Type := INFO | WARNING | ERROR.

Inductive log_record : Type :=
| log_failed_to_read (p : path) (e : exn)
| log_successfully_wrote (p : path)
| log_failed_to_write (p : path) (e : exn)
| log_error_traversing (yim_version : string) (e : exn)
| log_created_default (yim_version : string) (p : path)
| log_failed_to_create_default (yim_version : string)
| log_same_versions.

Definition log_level (r : log_record) : level :=
  match r with
  | log_failed_to_read _ _ => WARNING
  | log_successfully_wrote _ => INFO
  | log_failed_to_write _ _ => ERROR
  | log_error_traversing _ _ => ERROR
  | log_created_default _ _ => INFO
  | log_failed_to_create_default _ => ERROR
  | log_same_versions => WARNING
  end.

Record world : Type := World {
  (* the singleton SettingsManager *)
  _settings_cache : per_version pyref;
  _last_modified : per_version Z;
  (* the interpreter's objects *)
  heap : list json;
  (* the file system *)
  files : gmap path file;
  unreadable : gset path;     (* open(p, "r") is refused *)
  unwritable : gset path;     (* p can neither be created nor replaced *)
  now : Z;                    (* the timestamp a write gets *)
  io : list io_event;         (* opens and moves, latest first *)
  (* the logger *)
  log : list log_record       (* latest first *)
}.

Definition with_cache (w : world) (c : per_version pyref) : world :=
  World c (_last_modified w) (heap w) (files w) (unreadable w) (unwritable w)
        (now w) (io w) (log w).
Definition with_last_modified (w : world) (m : per_version Z) : world :=
  World (_settings_cache w) m (heap w) (files w) (unreadable w) (unwritable w)
        (now w) (io w) (log w).
Definition with_heap (w : world) (h : list json) : world :=
  World (_settings_cache w) (_last_modified w) h (files w) (unreadable w)
        (unwritable w) (now w) (io w) (log w).
Definition with_files (w : world) (f : gmap path file) : world :=
  World (_settings_cache w) (_last_modified w) (heap w) f (unreadable w)
        (unwritable w) (now w) (io w) (log w).
Definition with_io (w : world) (t : list io_event) : world :=
  World (_settings_cache w) (_last_modified w) (heap w) (files w)
        (unreadable w) (unwritable w) (now w) t (log w).
Definition with_log (w : world) (l : list log_record) : world :=
  World (_settings_cache w) (_last_modified w) (heap w) (files w)
        (unreadable w) (unwritable w) (now w) (io w) l.

(** The object behind a reference. *)
Definition deref (h : list json) (r : pyref) : json :=
  match r with
  | None => JNull
  | Some l => default JNull (h !! l)
  end.

(** ** A state and exception monad for the methods *)

Definition ST (S A : Type) : Type := S -> result A * S.

Definition ret {S A} (a : A) : ST S A := fun w => (Ok a, w).
Definition raise {S A} (e : exn) : ST S A := fun w => (Raise e, w).
Definition bind {S A B} (c : ST S A) (k : A -> ST S B) : ST S B :=
  fun w => match c w with
           | (Ok a, w') => k a w'
           | (Raise e, w') => (Raise e, w')
           end.

Notation "x <- c ;; k" := (bind c (fun x => k))
  (at level 100, c at next level, right associativity).
Notation "c ;;; k" := (bind c (fun _ => k))
  (at level 100, right associativity).

(** [try: body except (E1, E2) as e: handler].  The effects of [body] up to
    the exception stay. *)
Definition try_except {S A} (body : ST S A) (caught : exn -> bool)
    (handler : exn -> ST S A) : ST S A :=
  fun w => match body w with
           | (Ok a, w') => (Ok a, w')
           | (Raise e, w') => if caught e then handler e w' else (Raise e, w')
           end.

Definition is_OSError (e : exn) : bool :=
  match e with OSError => true | _ => false end.
Definition is_JSONDecodeError_or_OSError (e : exn) : bool :=
  match e with JSONDecodeError | OSError => true | _ => false end.
Definition is_KeyError_or_TypeError (e : exn) : bool :=
  match e with KeyError | TypeError => true | _ => false end.
(** [except Exception]: every exception of the model is one. *)
Definition is_Exception (e : exn) : bool := true.

(** The methods of [SettingsManager] run on a [world]. *)
Abbreviation M := (ST world).

(** A new object.  [None] is a singleton and is not allocated. *)
Definition new_object (j : json) : M pyref :=
  fun w => match j with
           | JNull => (Ok None, w)
           | _ => (Ok (Some (length (heap w))), with_heap w (heap w ++ [j]))
           end.

Definition logger (r : log_record) : M unit :=
  fun w => (Ok tt, with_log w (r :: log w)).

(** *** os, shutil, json *)

Definition os_path_exists (p : path) : M bool :=
  fun w => (Ok (bool_decide (is_Some (files w !! p))), w).

Definition os_path_getmtime (p : path) : M Z :=
  fun w => match files w !! p with
           | Some f => (Ok (f_mtime f), w)
           | None => (Raise OSError, w)
           end.

(** [with open(p, "r", encoding="utf-8") as f: return json.load(f)] *)
Definition open_json_load (p : path) : M json :=
  fun w =>
    let w' := with_io w (io_open_r p :: io w) in
    match files w !! p with
    | None => (Raise OSError, w')
    | Some f =>
        if bool_decide (p ∈ unreadable w) then (Raise OSError, w')
        else match f_content f with
             | Json j => (Ok j, w')
             | BadSyntax => (Raise JSONDecodeError, w')
             | BadEncoding => (Raise UnicodeDecodeError, w')
             end
    end.

(** [os.makedirs(os.path.dirname(p), exist_ok=True)]: paths.py has created
    both application-data directories when it was imported. *)
Definition os_makedirs_dirname (p : path) : M unit := ret tt.

(** [with open(p, "w", encoding="utf-8") as f: json.dump(data, f, indent=4)] *)
Definition open_json_dump (p : path) (data : pyref) : M unit :=
  fun w =>
    let w' := with_io w (io_open_w p :: io w) in
    if bool_decide (p ∈ unwritable w) then (Raise OSError, w')
    else (Ok tt,
          with_files w' (<[p := File (Json (deref (heap w) data)) (now w)]>
                           (files w))).

(** [shutil.move(src, dst)] of a file onto a file path: the file keeps its
    content and timestamp, and replaces what was at [dst]. *)
Definition shutil_move (src dst : path) : M unit :=
  fun w =>
    let w' := with_io w (io_move src dst :: io w) in
    match files w !! src with
    | None => (Raise OSError, w')
    | Some f =>
        if bool_decide (dst ∈ unwritable w) then (Raise OSError, w')
        else (Ok tt, with_files w' (<[dst := f]> (delete src (files w))))
    end.

(** ** settings_manager.py *)

Definition SETTINGS_FILE_PATHS (k : version_key) : path :=
  match k with
  | v1 => YIMMENU_SETTINGS_FILE_PATH
  | v2 => YIMMENUV2_SETTINGS_FILE_PATH
  end.

(** ["v2" if yim_version == "v2" else "v1"] *)
Definition version_key_of (yim_version : string) : version_key :=
  if String.eqb yim_version "v2" then v2 else v1.

(** [SettingsManager.__init__], on the first construction. *)
Definition __init__ (w : world) : world :=
  with_last_modified (with_cache w (PerVersion None None)) (PerVersion 0 0).

Definition get_cache (k : version_key) : M pyref :=
  fun w => (Ok (pv_get (_settings_cache w) k), w).
Definition set_cache (k : version_key) (r : pyref) : M unit :=
  fun w => (Ok tt, with_cache w (pv_set (_settings_cache w) k r)).
Definition get_last_modified (k : version_key) : M Z :=
  fun w => (Ok (pv_get (_last_modified w) k), w).
Definition set_last_modified (k : version_key) (t : Z) : M unit :=
  fun w => (Ok tt, with_last_modified w (pv_set (_last_modified w) k t)).

Definition _get_file_path (yim_version : string) : path :=
  let version_key := version_key_of yim_version in
  SETTINGS_FILE_PATHS version_key.

Definition _read_json_safely (file_path : path) : M pyref :=
  e <- os_path_exists file_path ;;
  if negb e then new_object (JDict [])
  else
    try_except
      (j <- open_json_load file_path ;; new_object j)
      is_JSONDecodeError_or_OSError
      (fun e => logger (log_failed_to_read file_path e) ;;;
                new_object (JDict [])).

Definition _write_json_safely (file_path : path) (data : pyref)
    (version : version_key) : M bool :=
  let temp_file := dot_tmp file_path in
  try_except
    (os_makedirs_dirname file_path ;;;
     open_json_dump temp_file data ;;;
     shutil_move temp_file file_path ;;;
     set_cache version data ;;;
     t <- os_path_getmtime file_path ;;
     set_last_modified version t ;;;
     logger (log_successfully_wrote file_path) ;;;
     ret true)
    is_OSError
    (fun e => logger (log_failed_to_write file_path e) ;;; ret false).

Definition _get_settings_with_cache (yim_version : string) : M pyref :=
  let version_key := version_key_of yim_version in
  let file_path := _get_file_path yim_version in
  e <- os_path_exists file_path ;;
  if negb e then new_object (JDict [])
  else
    try_except
      (current_mtime <- os_path_getmtime file_path ;;
       cached <- get_cache version_key ;;
       last <- get_last_modified version_key ;;
       (if bool_decide (cached = None) || negb (Z.eqb last current_mtime)
        then
          r <- _read_json_safely file_path ;;
          set_cache version_key r ;;;
          set_last_modified version_key current_mtime
        else ret tt) ;;;
       get_cache version_key)
      is_OSError
      (fun _ => new_object (JDict [])).

(** The value a reference denotes now. *)
Definition read_ref (r : pyref) : M json :=
  fun w => (Ok (deref (heap w) r), w).

(** The object behind [r] becomes [j]. *)
Definition write_ref (r : pyref) (j : json) : M unit :=
  fun w => match r with
           | Some l => (Ok tt, with_heap w (<[l := j]> (heap w)))
           | None => (Ok tt, w)
           end.

Definition get_setting (key_path : string) (default : json)
    (yim_version : string) : M json :=
  data <- _get_settings_with_cache yim_version ;;
  let keys := split_dot key_path in
  value <- read_ref data ;;
  try_except
    (fun w => (traverse value keys, w))
    is_KeyError_or_TypeError
    (fun _ => ret default).

Definition set_setting (key_path : string) (value : json)
    (yim_version : string) : M bool :=
  let version_key := version_key_of yim_version in
  let file_path := _get_file_path yim_version in
  data <- _get_settings_with_cache yim_version ;;
  let keys := split_dot key_path in
  ok <- try_except
          (d <- read_ref data ;;
           d' <- (fun w => (assign d keys value, w)) ;;
           write_ref data d' ;;;
           ret true)
          is_Exception
          (fun e => logger (log_error_traversing yim_version e) ;;; ret false) ;;
  if negb ok then ret false
  else _write_json_safely file_path data version_key.

Definition default_settings : json :=
  JDict [("lua", JDict [("auto_reload_scripts", JBool false);
                        ("auto_reload_changed_scripts", JBool false)]);
         ("debug", JDict [("external_console", JBool false)]);
         ("theme", JDict [("light_mode", JBool false)])].

Definition ensure_settings_file_exists (yim_version : string) : M unit :=
  let file_path := _get_file_path yim_version in
  e <- os_path_exists file_path ;;
  if negb e then
    default_settings <- new_object default_settings ;;
    let version_key := version_key_of yim_version in
    success <- _write_json_safely file_path default_settings version_key ;;
    if success then logger (log_created_default yim_version file_path)
    else logger (log_failed_to_create_default yim_version)
  else ret tt.

Definition get_auto_reload_changed_scripts (yim_version : string) : M json :=
  get_setting "lua.auto_reload_changed_scripts" (JBool false) yim_version.

Definition set_auto_reload_changed_scripts (value : json)
    (yim_version : string) : M bool :=
  set_setting "lua.auto_reload_changed_scripts" value yim_version.

Definition sync_auto_reload_settings (source_version target_version : string)
  : M bool :=
  if String.eqb source_version target_version then
    logger log_same_versions ;;; ret true
  else
    value <- get_auto_reload_changed_scripts source_version ;;
    set_auto_reload_changed_scripts value target_version.

(** *** The other accessors of settings_manager.py *)

Definition get_auto_reload_scripts (yim_version : string) : M json :=
  get_setting "lua.auto_reload_scripts" (JBool false) yim_version.

Definition set_auto_reload_scripts (value : json) (yim_version : string)
  : M bool :=
  set_setting "lua.auto_reload_scripts" value yim_version.

(** The [dict] with the keys ["v1"] and ["v2"] that is returned. *)
Definition get_both_auto_reload_settings : M (per_version json) :=
  a <- get_auto_reload_changed_scripts "v1" ;;
  b <- get_auto_reload_changed_scripts "v2" ;;
  ret (PerVersion a b).

(** Both calls are made before [success_v1 and success_v2] is evaluated. *)
Definition set_both_auto_reload_settings (v1_value v2_value : json) : M bool :=
  success_v1 <- set_auto_reload_changed_scripts v1_value "v1" ;;
  success_v2 <- set_auto_reload_changed_scripts v2_value "v2" ;;
  ret (success_v1 && success_v2).

(** The functions of the module, outside the class. *)
Definition get_auto_reload_setting (yim_version : string) : M json :=
  get_auto_reload_changed_scripts yim_version.

Definition set_auto_reload_setting (value : json) (yim_version : string)
  : M bool :=
  success1 <- set_setting "lua.auto_reload_scripts" value yim_version ;;
  success2 <- set_setting "lua.auto_reload_changed_scripts" value yim_version ;;
  ret (success1 && success2).

(** ** Definitions for the statements about the settings store *)

(** The child the loop of [set_setting] descends into: the [dict] that is
    there, or a new empty one. *)
Definition child_dict (m : list (string * json)) (key : string) : json :=
  match dict_get m key with
  | Some (JDict mx) => JDict mx
  | _ => JDict []
  end.

(** The state after [_read_json_safely] has logged its warning and made the
    empty [dict] it returns. *)
Definition read_failed (p : path) (e : exn) (w : world) : world :=
  World (_settings_cache w) (_last_modified w) (heap w ++ [JDict []])
        (files w) (unreadable w) (unwritable w) (now w)
        (io_open_r p :: io w) (log_failed_to_read p e :: log w).

(** The states [_write_json_safely] can end in. *)
Definition written (p : path) (data : pyref) (k : version_key) (w : world)
  : world :=
  let f := File (Json (deref (heap w) data)) (now w) in
  World (pv_set (_settings_cache w) k data)
        (pv_set (_last_modified w) k (now w))
        (heap w)
        (<[p := f]> (delete (dot_tmp p) (<[dot_tmp p := f]> (files w))))
        (unreadable w) (unwritable w) (now w)
        (io_move (dot_tmp p) p :: io_open_w (dot_tmp p) :: io w)
        (log_successfully_wrote p :: log w).

Definition write_refused (p : path) (w : world) : world :=
  World (_settings_cache w) (_last_modified w) (heap w) (files w)
        (unreadable w) (unwritable w) (now w)
        (io_open_w (dot_tmp p) :: io w)
        (log_failed_to_write p OSError :: log w).

Definition move_refused (p : path) (data : pyref) (w : world) : world :=
  World (_settings_cache w) (_last_modified w) (heap w)
        (<[dot_tmp p := File (Json (deref (heap w) data)) (now w)]> (files w))
        (unreadable w) (unwritable w) (now w)
        (io_move (dot_tmp p) p :: io_open_w (dot_tmp p) :: io w)
        (log_failed_to_write p OSError :: log w).

(** The value [get_setting] returns for a document. *)
Definition found_or (default : json) (doc : json) (keys : list string) : json :=
  match traverse doc keys with
  | Ok v => v
  | Raise _ => default
  end.

(** The object behind [data] after the loop of [set_setting]. *)
Definition mutated (data : pyref) (d' : json) (w : world) : world :=
  match data with
  | Some l => with_heap w (<[l := d']> (heap w))
  | None => w
  end.

(** A first run: the manager just constructed, no settings file on disk. *)
Definition fresh_world : world :=
  __init__ (World (PerVersion None None) (PerVersion 0 0) [] ∅ ∅ ∅ 100 [] []).

(** A key path does not lead to a value of the document: one of its segments
    is absent, or what an earlier segment leads to is not a mapping. *)
Inductive unreachable : json → list string → Prop :=
| segment_absent m key keys :
    dict_get m key = None → unreachable (JDict m) (key :: keys)
| not_a_mapping d key keys :
    isinstance_dict d = false → unreachable d (key :: keys)
| unreachable_below m key x keys :
    dict_get m key = Some x → unreachable x keys →
    unreachable (JDict m) (key :: keys).

(** The manager just constructed, and a [settings.json] of YimMenu that does
    not parse. *)
Definition malformed_world : world :=
  __init__ (World (PerVersion None None) (PerVersion 0 0) []
                  {[YIMMENU_SETTINGS_FILE_PATH := File BadSyntax 7]}
                  ∅ ∅ 100 [] []).

(** The state after a read that found a syntax error in the file [f]. *)
Definition cached_empty (k : version_key) (f : file) (w : world) : world :=
  World (pv_set (_settings_cache w) k (Some (length (heap w))))
        (pv_set (_last_modified w) k (f_mtime f))
        (heap w ++ [JDict []])
        (files w) (unreadable w) (unwritable w) (now w)
        (io_open_r (SETTINGS_FILE_PATHS k) :: io w)
        (log_failed_to_read (SETTINGS_FILE_PATHS k) JSONDecodeError :: log w).


(** The settings file becomes read-only. *)
Definition protect (p : path) (w : world) : world :=
  World (_settings_cache w) (_last_modified w) (heap w) (files w)
        (unreadable w) ({[p]} ∪ unwritable w) (now w) (io w) (log w).

(** The chain of new mappings that [set_setting] builds for the keys it
    could not follow. *)
Fixpoint nested (keys : list string) (value : json) : json :=
  match keys with
  | [] => value
  | key :: keys' => JDict [(key, nested keys' value)]
  end.

(** The manager just constructed, and a [settings.json] of YimMenu that
    holds [{"lua": true}]. *)
Definition lua_true_world : world :=
  __init__ (World (PerVersion None None) (PerVersion 0 0) []
                  {[YIMMENU_SETTINGS_FILE_PATH :=
                      File (Json (JDict [("lua", JBool true)])) 7]}
                  ∅ ∅ 100 [] []).

(** The cache entries point into the heap, and not at the same object. *)
Definition wf (w : world) : Prop :=
  ∀ k l, pv_get (_settings_cache w) k = Some l →
         (l < length (heap w))%nat ∧
         ∀ k', k' ≠ k → pv_get (_settings_cache w) k' ≠ Some l.

(** What a read of installation [k] depends on is the same in [w'] as in
    [w]. *)
Definition same_installation (k : version_key) (w w' : world) : Prop :=
  files w' !! SETTINGS_FILE_PATHS k = files w !! SETTINGS_FILE_PATHS k
  ∧ unreadable w' = unreadable w
  ∧ pv_get (_settings_cache w') k = pv_get (_settings_cache w) k
  ∧ pv_get (_last_modified w') k = pv_get (_last_modified w) k
  ∧ deref (heap w') (pv_get (_settings_cache w) k)
    = deref (heap w) (pv_get (_settings_cache w) k).

(** The document [_get_settings_with_cache] returns, as a value. *)
Definition fetched (k : version_key) (w : world) : result json :=
  let p := SETTINGS_FILE_PATHS k in
  match files w !! p with
  | None => Ok (JDict [])
  | Some f =>
      if bool_decide (pv_get (_settings_cache w) k = None)
         || negb (pv_get (_last_modified w) k =? f_mtime f)
      then
        if bool_decide (p ∈ unreadable w) then Ok (JDict [])
        else match f_content f with
             | Json j => Ok j
             | BadSyntax => Ok (JDict [])
             | BadEncoding => Raise UnicodeDecodeError
             end
      else Ok (deref (heap w) (pv_get (_settings_cache w) k))
  end.

Definition doc_of (c : result pyref * world) : result json :=
  match c with
  | (Ok r, w1) => Ok (deref (heap w1) r)
  | (Raise e, _) => Raise e
  end.

(** Two key paths part ways: at some position they have different keys. *)
Fixpoint diverge (p q : list string) : bool :=
  match p, q with
  | a :: p', b :: q' => if String.eqb a b then diverge p' q' else true
  | _, _ => false
  end.

(** Both installations have their default file, and the flag is set in the
    first one. *)
Definition flag_set_world : world :=
  let w1 := (ensure_settings_file_exists "v1" fresh_world).2 in
  let w2 := (ensure_settings_file_exists "v2" w1).2 in
  (set_auto_reload_changed_scripts (JBool true) "v1" w2).2.

(** The manager just constructed, and a [settings.json] of YimMenu that
    holds a JSON array. *)
Definition array_world : world :=
  __init__ (World (PerVersion None None) (PerVersion 0 0) []
                  {[YIMMENU_SETTINGS_FILE_PATH :=
                      File (Json (JList [JNum 1; JNum 2])) 7]}
                  ∅ ∅ 100 [] []).

(** The manager just constructed, and a [settings.json] of YimMenu that
    holds [null]. *)
Definition null_world : world :=
  __init__ (World (PerVersion None None) (PerVersion 0 0) []
                  {[YIMMENU_SETTINGS_FILE_PATH := File (Json JNull) 7]}
                  ∅ ∅ 100 [] []).

(** ** lua_manager.py

    The script folders are directories of one tree below [%APPDATA%]; a path is
    the list of its components.  A script name is taken to be one component
    (no separator, no drive), so that [os.path.join(dir, name)] is
    [dir ++ [name]]. *)

Module Lua.

Inductive node : Type :=
| NFile (data : string)
| NDir (entries : list (string * node)).

Definition fspath := list string.

Fixpoint entry_get (es : list (string * node)) (name : string) : option node :=
  match es with
  | [] => None
  | (k, x) :: es' => if String.eqb k name then Some x else entry_get es' name
  end.

Fixpoint entry_set (es : list (string * node)) (name : string) (x : node)
  : list (string * node) :=
  match es with
  | [] => [(name, x)]
  | (k, y) :: es' =>
      if String.eqb k name then (k, x) :: es' else (k, y) :: entry_set es' name x
  end.

Fixpoint entry_del (es : list (string * node)) (name : string)
  : list (string * node) :=
  match es with
  | [] => []
  | (k, y) :: es' =>
      if String.eqb k name then entry_del es' name
      else (k, y) :: entry_del es' name
  end.

(** The node at a path, from the directory [n]. *)
Fixpoint lookup_path (n : node) (p : fspath) : option node :=
  match p with
  | [] => Some n
  | c :: p' =>
      match n with
      | NDir es =>
          match entry_get es c with
          | Some n' => lookup_path n' p'
          | None => None
          end
      | NFile _ => None
      end
  end.

(** The entry at path [p] becomes [x], or goes when [x] is [None]; the parent
    of [p] has to be a directory. *)
Fixpoint put_path (n : node) (p : fspath) (x : option node) : node :=
  match p with
  | [] => n
  | c :: p' =>
      match n with
      | NFile _ => n
      | NDir es =>
          match p' with
          | [] => NDir (match x with
                        | Some y => entry_set es c y
                        | None => entry_del es c
                        end)
          | _ :: _ =>
              match entry_get es c with
              | Some n' => NDir (entry_set es c (put_path n' p' x))
              | None => n
              end
          end
      end
  end.

(** [os.makedirs(p, exist_ok=True)]: missing directories are created; a file
    on the way raises [FileExistsError] or [NotADirectoryError]. *)
Fixpoint mkdirs (n : node) (p : fspath) : result node :=
  match n with
  | NFile _ => Raise OSError
  | NDir es =>
      match p with
      | [] => Ok n
      | c :: p' =>
          match mkdirs (default (NDir []) (entry_get es c)) p' with
          | Ok n' => Ok (NDir (entry_set es c n'))
          | Raise e => Raise e
          end
      end
  end.

Definition is_dir (o : option node) : bool :=
  match o with Some (NDir _) => true | _ => false end.
Definition is_file (o : option node) : bool :=
  match o with Some (NFile _) => true | _ => false end.

Fixpoint endswith (s suffix : string) : bool :=
  String.eqb s suffix ||
  match s with
  | EmptyString => false
  | String _ s' => endswith s' suffix
  end.

Fixpoint removesuffix (s suffix : string) : string :=
  if String.eqb s suffix then EmptyString
  else match s with
       | EmptyString => EmptyString
       | String c s' => String c (removesuffix s' suffix)
       end.

(** [sorted] on a list of [str]: the order of the code points. *)
Definition sorted (l : list string) : list string := merge_sort String.le l.

Inductive log_record : Type :=
| debug_getting_scripts (version : string) (dir : fspath)
| debug_found_enabled (version : string) (names : list string)
| debug_found_disabled (version : string) (names : list string)
| error_cannot_enable (actual_filename version : string)
| info_enabled (actual_filename version : string)
| exception_enabling (actual_filename version : string) (e : exn)
| error_cannot_disable (actual_filename version : string)
| info_disabled (actual_filename version : string)
| exception_disabling (actual_filename version : string) (e : exn).

Record world : Type := World {
  root : node;                (* the directory %APPDATA% *)
  locked : list fspath;       (* paths that cannot be renamed from or onto *)
  log : list log_record       (* latest first *)
}.

Abbreviation L := (ST world).

Definition logger (r : log_record) : L unit :=
  fun w => (Ok tt, World (root w) (locked w) (r :: log w)).

Definition os_path_join (dir : fspath) (name : string) : fspath :=
  (dir ++ [name])%list.
Definition os_path_dirname (p : fspath) : fspath := removelast p.
Definition os_path_basename (p : fspath) : string := List.last p EmptyString.

Definition os_path_exists (p : fspath) : L bool :=
  fun w => (Ok (bool_decide (is_Some (lookup_path (root w) p))), w).
Definition os_path_isdir (p : fspath) : L bool :=
  fun w => (Ok (is_dir (lookup_path (root w) p)), w).
Definition os_path_isfile (p : fspath) : L bool :=
  fun w => (Ok (is_file (lookup_path (root w) p)), w).

Definition os_makedirs (p : fspath) : L unit :=
  fun w => match mkdirs (root w) p with
           | Ok n => (Ok tt, World n (locked w) (log w))
           | Raise e => (Raise e, w)
           end.

(** [os.listdir]: the names in the directory, in the directory's order. *)
Definition os_listdir (p : fspath) : L (list string) :=
  fun w => match lookup_path (root w) p with
           | Some (NDir es) => (Ok (fst <$> es), w)
           | _ => (Raise OSError, w)
           end.

(** [shutil.move(src, dst)].  When [dst] is a directory the source goes
    inside it, unless the name is taken there.  A file replaces a file at
    the destination; a directory does not replace anything. *)
Definition shutil_move (src dst : fspath) : L unit :=
  fun w =>
    match lookup_path (root w) src with
    | None => (Raise OSError, w)
    | Some n =>
        let dst_is_dir := is_dir (lookup_path (root w) dst) in
        let real_dst :=
          if dst_is_dir then os_path_join dst (os_path_basename src) else dst in
        if dst_is_dir && bool_decide (is_Some (lookup_path (root w) real_dst))
        then (Raise OSError, w)
        else if bool_decide (src ∈ locked w) || bool_decide (real_dst ∈ locked w)
        then (Raise OSError, w)
        else if is_dir (Some n) &&
                bool_decide (is_Some (lookup_path (root w) real_dst))
        then (Raise OSError, w)
        else (Ok tt,
              World (put_path (put_path (root w) src None) real_dst (Some n))
                    (locked w) (log w))
    end.

Definition YIMMENU_SCRIPTS_DIR : fspath := ["YimMenu"; "scripts"].
Definition YIMMENU_DISABLED_SCRIPTS_DIR : fspath :=
  os_path_join YIMMENU_SCRIPTS_DIR "disabled".
Definition YIMMENUV2_SCRIPTS_DIR : fspath := ["YimMenuV2"; "scripts"].

Definition SCRIPTS_PATH : fspath := YIMMENU_SCRIPTS_DIR.
Definition DISABLED_SCRIPTS_PATH : fspath := YIMMENU_DISABLED_SCRIPTS_DIR.
Definition SCRIPTS_PATH_V2 : fspath := YIMMENUV2_SCRIPTS_DIR.
Definition DISABLED_SCRIPTS_PATH_V2 : fspath :=
  os_path_join YIMMENUV2_SCRIPTS_DIR "disabled".

(** The comprehension of [_get_lua_files]. *)
Fixpoint lua_files_in (directory : fspath) (names : list string)
  : L (list string) :=
  match names with
  | [] => ret []
  | f :: names' =>
      keep <- (if endswith f ".lua"
               then os_path_isfile (os_path_join directory f)
               else ret false) ;;
      rest <- lua_files_in directory names' ;;
      ret (if keep then f :: rest else rest)
  end.

Definition _get_lua_files (directory : fspath) : L (list string) :=
  d <- os_path_isdir directory ;;
  if negb d then ret []
  else
    names <- os_listdir directory ;;
    lua_files_in directory names.

Record scripts : Type := Scripts {
  enabled : list string;
  disabled : list string
}.

Definition dirs_of (version : string) : fspath * fspath :=
  if String.eqb version "v2"
  then (SCRIPTS_PATH_V2, DISABLED_SCRIPTS_PATH_V2)
  else (SCRIPTS_PATH, DISABLED_SCRIPTS_PATH).

Definition get_scripts (version : string) : L scripts :=
  let '(scripts_dir, disabled_dir) := dirs_of version in
  logger (debug_getting_scripts version scripts_dir) ;;;
  os_makedirs scripts_dir ;;;
  os_makedirs disabled_dir ;;;
  enabled_scripts_full <- _get_lua_files scripts_dir ;;
  disabled_scripts_full <- _get_lua_files disabled_dir ;;
  let enabled_display :=
    (fun s => removesuffix s ".lua") <$> sorted enabled_scripts_full in
  let disabled_display :=
    (fun s => removesuffix s ".lua") <$> sorted disabled_scripts_full in
  logger (debug_found_enabled version enabled_display) ;;;
  logger (debug_found_disabled version disabled_display) ;;;
  ret (Scripts enabled_display disabled_display).

Definition enable_script (filename version : string) : L bool :=
  let '(scripts_dir, disabled_dir) := dirs_of version in
  let actual_filename := filename ++ ".lua" in
  let src := os_path_join disabled_dir actual_filename in
  let dest := os_path_join scripts_dir actual_filename in
  e <- os_path_exists src ;;
  if negb e then
    logger (error_cannot_enable actual_filename version) ;;; ret false
  else
    try_except
      (os_makedirs (os_path_dirname dest) ;;;
       shutil_move src dest ;;;
       logger (info_enabled actual_filename version) ;;;
       ret true)
      is_OSError
      (fun e => logger (exception_enabling actual_filename version e) ;;;
                ret false).

Definition disable_script (filename version : string) : L bool :=
  let '(scripts_dir, disabled_dir) := dirs_of version in
  let actual_filename := filename ++ ".lua" in
  let src := os_path_join scripts_dir actual_filename in
  let dest := os_path_join disabled_dir actual_filename in
  e <- os_path_exists src ;;
  if negb e then
    logger (error_cannot_disable actual_filename version) ;;; ret false
  else
    try_except
      (os_makedirs (os_path_dirname dest) ;;;
       shutil_move src dest ;;;
       logger (info_disabled actual_filename version) ;;;
       ret true)
      is_OSError
      (fun e => logger (exception_disabling actual_filename version e) ;;;
                ret false).

(** *** Definitions for the statements about the script folders *)

(** The test of the comprehension of [_get_lua_files]. *)
Definition is_lua_file r dir f : Prop :=
  endswith f ".lua" = true
  ∧ is_file (lookup_path r (os_path_join dir f)) = true.

Global Instance is_lua_file_dec r dir f : Decision (is_lua_file r dir f).
Proof. unfold is_lua_file. apply _. Defined.

(** What [get_scripts] shows for a directory. *)
Definition display (names : list string) : list string :=
  (fun s => removesuffix s ".lua") <$> sorted names.

(** The folders of YimMenu with the scripts [a.lua] and [a-b.lua] enabled
    and [b.lua] disabled. *)
Definition three_scripts_world : world :=
  World (NDir [("YimMenu", NDir [("scripts",
           NDir [("a.lua", NFile "-- a");
                 ("disabled", NDir [("b.lua", NFile "-- b")]);
                 ("a-b.lua", NFile "-- a-b");
                 ("notes.txt", NFile "todo")])])])
        [] [].

End Lua.


(** *** Copying a script from one installation to the other

    [copy_script_between_versions] logs records of its own; they are kept
    beside the state of the folders. *)

Module LuaCopy.
Import Lua.

Inductive copy_log_record : Type :=
| error_invalid_version (from_version to_version : string)
| error_not_found (actual_filename from_version : string)
| info_copied (actual_filename from_version to_version : string)
| exception_copying (actual_filename from_version to_version : string)
    (e : exn).

Record state : Type := State {
  folders : Lua.world;
  copy_log : list copy_log_record       (* latest first *)
}.

Definition lift {A} (c : ST Lua.world A) : ST state A :=
  fun s => let '(r, w') := c (folders s) in (r, State w' (copy_log s)).

Definition logger (r : copy_log_record) : ST state unit :=
  fun s => (Ok tt, State (folders s) (r :: copy_log s)).

(** [shutil.copy2(src, dst)]: into [dst] when it is a directory; the source
    has to be a regular file and another file than the destination
    ([SameFileError] is an [OSError]); a file at the destination is
    overwritten. *)
Definition shutil_copy2 (src dst : fspath) : ST Lua.world unit :=
  fun w =>
    let real_dst :=
      if is_dir (lookup_path (root w) dst)
      then os_path_join dst (os_path_basename src) else dst in
    match lookup_path (root w) src with
    | None => (Raise OSError, w)
    | Some n =>
        if bool_decide (src = real_dst) then (Raise OSError, w)
        else
          match n with
          | NDir _ => (Raise OSError, w)
          | NFile data =>
              if is_dir (lookup_path (root w) real_dst)
              then (Raise OSError, w)
              else if negb (is_dir (lookup_path (root w)
                                      (os_path_dirname real_dst)))
              then (Raise OSError, w)
              else if bool_decide (real_dst ∈ locked w)
              then (Raise OSError, w)
              else (Ok tt,
                    Lua.World (put_path (root w) real_dst (Some (NFile data)))
                              (locked w) (log w))
          end
    end.

Definition YIMMENU_APPDATA_DIR : fspath := ["YimMenu"].
Definition YIMMENUV2_APPDATA_DIR : fspath := ["YimMenuV2"].
Definition YIM_FOLDER_PATH : fspath := YIMMENU_APPDATA_DIR.
Definition YIMV2_FOLDER_PATH : fspath := YIMMENUV2_APPDATA_DIR.

Record script_paths : Type := ScriptPaths {
  appdata_dir : fspath;
  scripts_dir : fspath;
  disabled_dir : fspath
}.

Definition get_script_paths (version : string) : script_paths :=
  if String.eqb version "v2"
  then ScriptPaths YIMV2_FOLDER_PATH SCRIPTS_PATH_V2 DISABLED_SCRIPTS_PATH_V2
  else ScriptPaths YIM_FOLDER_PATH SCRIPTS_PATH DISABLED_SCRIPTS_PATH.

(** [version in ["v1", "v2"]] *)
Definition in_v1_v2 (version : string) : bool :=
  String.eqb version "v1" || String.eqb version "v2".

Definition copy_script_between_versions
    (filename from_version to_version : string) (enabled : bool)
  : ST state bool :=
  if negb (in_v1_v2 from_version) || negb (in_v1_v2 to_version) then
    logger (error_invalid_version from_version to_version) ;;; ret false
  else
    let actual_filename := (filename ++ ".lua")%string in
    let from_paths := get_script_paths from_version in
    let src_dir :=
      if enabled then scripts_dir from_paths else disabled_dir from_paths in
    let src := os_path_join src_dir actual_filename in
    let to_paths := get_script_paths to_version in
    let dest_dir :=
      if enabled then scripts_dir to_paths else disabled_dir to_paths in
    let dest := os_path_join dest_dir actual_filename in
    e <- lift (os_path_exists src) ;;
    if negb e then
      logger (error_not_found actual_filename from_version) ;;; ret false
    else
      try_except
        (lift (os_makedirs (os_path_dirname dest)) ;;;
         lift (shutil_copy2 src dest) ;;;
         logger (info_copied actual_filename from_version to_version) ;;;
         ret true)
        is_OSError
        (fun e =>
           logger (exception_copying actual_filename from_version to_version e)
           ;;; ret false).

(** *** Definitions for the statements about copies *)

(** The folder a script is copied from, or to: [src_dir] and [dest_dir] of
    [copy_script_between_versions]. *)
Definition folder_of (version : string) (enabled : bool) : fspath :=
  if enabled then scripts_dir (get_script_paths version)
  else disabled_dir (get_script_paths version).

End LuaCopy.

(** * Properties *)

Open Scope list_scope.

(** ** Dictionaries and key paths *)

Section dict_facts.
Implicit Types (d : list (string * json)) (k : string) (x : json).

Lemma dict_get_set_eq d k x : dict_get (dict_set d k x) k = Some x.
Proof.
  induction d as [|[k' y] d IH]; simpl.
  - by rewrite String.eqb_refl.
  - destruct (String.eqb k' k) eqn:E; simpl; rewrite E; [done | apply IH].
Qed.

Lemma dict_get_set_ne d k k' x :
  k ≠ k' → dict_get (dict_set d k x) k' = dict_get d k'.
Proof.
  intros Hne. induction d as [|[k0 y] d IH]; simpl.
  - apply String.eqb_neq in Hne. by rewrite Hne.
  - destruct (String.eqb k0 k) eqn:E; simpl.
    + apply String.eqb_eq in E as ->.
      apply String.eqb_neq in Hne. by rewrite Hne.
    + by rewrite IH.
Qed.

Lemma dict_set_set d k x y : dict_set (dict_set d k x) k y = dict_set d k y.
Proof.
  induction d as [|[k0 z] d IH]; simpl.
  - by rewrite String.eqb_refl.
  - destruct (String.eqb k0 k) eqn:E; simpl; rewrite E; [done | by rewrite IH].
Qed.

End dict_facts.

Lemma split_dot_nonempty s : split_dot s ≠ [].
Proof.
  destruct s as [|c s]; simpl; [done|].
  destruct (Ascii.eqb c "."); [done|]. by destruct (split_dot s).
Qed.

(** One turn of the loop of [set_setting]. *)
Lemma assign_step d key key' rest value :
  assign d (key :: key' :: rest) value =
  match not_in_or_not_dict d key with
  | Raise e => Raise e
  | Ok fresh =>
      match (if fresh then setitem d key (JDict []) else Ok d) with
      | Raise e => Raise e
      | Ok d1 =>
          match getitem d1 key with
          | Raise e => Raise e
          | Ok child =>
              match assign child (key' :: rest) value with
              | Raise e => Raise e
              | Ok child' => setitem d1 key child'
              end
          end
      end
  end.
Proof. reflexivity. Qed.

Lemma traverse_step value key keys :
  traverse value (key :: keys) =
  match getitem value key with
  | Ok v => traverse v keys
  | Raise e => Raise e
  end.
Proof. reflexivity. Qed.

Lemma assign_step_dict m key key' rest value :
  assign (JDict m) (key :: key' :: rest) value =
  match assign (child_dict m key) (key' :: rest) value with
  | Raise e => Raise e
  | Ok child' => Ok (JDict (dict_set m key child'))
  end.
Proof.
  rewrite assign_step. unfold child_dict, not_in_or_not_dict.
  destruct (dict_get m key) as [x|] eqn:Hget.
  - destruct x; cbn [isinstance_dict negb setitem getitem];
      rewrite ?dict_get_set_eq, ?Hget;
      (destruct (assign _ _ _); [|done]); cbn [setitem];
      by rewrite ?dict_set_set.
  - cbn [setitem getitem]. rewrite dict_get_set_eq.
    destruct (assign _ _ _); [|done]. cbn [setitem]. by rewrite dict_set_set.
Qed.

(** On a [dict] and a key path with at least one key, the loop of
    [set_setting] runs to its end. *)
Lemma assign_dict_Ok keys : ∀ m value,
  keys ≠ [] → ∃ m', assign (JDict m) keys value = Ok (JDict m').
Proof.
  induction keys as [|key rest IH]; intros m value Hne; [done|].
  destruct rest as [|key' rest'].
  { simpl. eauto. }
  rewrite assign_step_dict. unfold child_dict.
  destruct (dict_get m key) as [[| | | | |mx]|];
    (edestruct IH as [m' ->]; [done|eauto]).
Qed.

(** It raises on everything else, before it has changed anything. *)
Lemma assign_Ok_inv d keys value d' :
  assign d keys value = Ok d' →
  keys ≠ [] ∧ isinstance_dict d = true ∧ isinstance_dict d' = true.
Proof.
  intros H. destruct keys as [|key rest]; [done|].
  split; [done|].
  destruct d as [| | | | |m]; try (by destruct rest).
  split; [done|].
  destruct (assign_dict_Ok (key :: rest) m value) as [m' Hm']; [done|].
  rewrite Hm' in H. by inversion H.
Qed.

(** What [set_setting] stores is what the loop of [get_setting] finds. *)
Lemma traverse_assign keys : ∀ d value d',
  assign d keys value = Ok d' → traverse d' keys = Ok value.
Proof.
  induction keys as [|key rest IH]; intros d value d' H; [done|].
  destruct (assign_Ok_inv _ _ _ _ H) as (_ & Hd & _).
  destruct d as [| | | | |m]; try done.
  destruct rest as [|key' rest'].
  { simpl in H. inversion H; subst. cbn. by rewrite dict_get_set_eq. }
  rewrite assign_step_dict in H.
  destruct (assign _ _ _) as [child'|] eqn:Hc; [|done].
  inversion H; subst.
  rewrite traverse_step. cbn [getitem]. rewrite dict_get_set_eq.
  by apply IH in Hc.
Qed.

(** ** The methods of [SettingsManager], case by case *)

Lemma _read_json_safely_missing p w :
  files w !! p = None →
  _read_json_safely p w =
    (Ok (Some (length (heap w))), with_heap w (heap w ++ [JDict []])).
Proof.
  intros H. unfold _read_json_safely, bind, os_path_exists. by rewrite H.
Qed.

Lemma _read_json_safely_exists p f w :
  files w !! p = Some f →
  _read_json_safely p w =
    if bool_decide (p ∈ unreadable w)
    then (Ok (Some (length (heap w))), read_failed p OSError w)
    else match f_content f with
         | Json j => new_object j (with_io w (io_open_r p :: io w))
         | BadSyntax =>
             (Ok (Some (length (heap w))), read_failed p JSONDecodeError w)
         | BadEncoding =>
             (Raise UnicodeDecodeError, with_io w (io_open_r p :: io w))
         end.
Proof.
  intros H.
  unfold _read_json_safely, bind, os_path_exists, try_except, open_json_load.
  rewrite !H. cbn. rewrite !H.
  case_bool_decide; [done|].
  destruct (f_content f) as [j| |]; cbn; try done.
  by destruct j.
Qed.

(** [_read_json_safely] lets no [OSError] through. *)
Lemma _read_json_safely_no_OSError p w e w' :
  _read_json_safely p w = (Raise e, w') → e = UnicodeDecodeError.
Proof.
  destruct (files w !! p) as [f|] eqn:Hf.
  - rewrite (_read_json_safely_exists _ _ _ Hf).
    case_bool_decide; [done|].
    destruct (f_content f) as [[]| |]; cbn; congruence.
  - rewrite (_read_json_safely_missing _ _ Hf). done.
Qed.

Lemma _get_settings_with_cache_missing yim_version w :
  files w !! _get_file_path yim_version = None →
  _get_settings_with_cache yim_version w =
    (Ok (Some (length (heap w))), with_heap w (heap w ++ [JDict []])).
Proof.
  intros H. unfold _get_settings_with_cache, bind, os_path_exists.
  by rewrite H.
Qed.

(** A valid cache entry is returned as it is: no read, no change. *)
Lemma _get_settings_with_cache_hit yim_version f w :
  files w !! _get_file_path yim_version = Some f →
  pv_get (_settings_cache w) (version_key_of yim_version) ≠ None →
  pv_get (_last_modified w) (version_key_of yim_version) = f_mtime f →
  _get_settings_with_cache yim_version w =
    (Ok (pv_get (_settings_cache w) (version_key_of yim_version)), w).
Proof.
  intros Hf Hc Hm.
  unfold _get_settings_with_cache, bind, os_path_exists, try_except,
    os_path_getmtime, get_cache, get_last_modified.
  rewrite !Hf. cbn. rewrite !Hf. cbn. rewrite Hm, Z.eqb_refl.
  rewrite bool_decide_eq_false_2 by done. done.
Qed.

(** An empty or outdated entry is replaced by what [_read_json_safely]
    returns, with the timestamp the file has now. *)
Lemma _get_settings_with_cache_refresh yim_version f w :
  let k := version_key_of yim_version in
  files w !! _get_file_path yim_version = Some f →
  pv_get (_settings_cache w) k = None ∨
    pv_get (_last_modified w) k ≠ f_mtime f →
  _get_settings_with_cache yim_version w =
    match _read_json_safely (_get_file_path yim_version) w with
    | (Ok r, w1) =>
        (Ok r,
         with_last_modified
           (with_cache w1 (pv_set (_settings_cache w1) k r))
           (pv_set (_last_modified w1) k (f_mtime f)))
    | (Raise e, w1) => (Raise e, w1)
    end.
Proof.
  intros k Hf Hc.
  unfold _get_settings_with_cache, bind, os_path_exists, try_except,
    os_path_getmtime, get_cache, get_last_modified.
  rewrite !Hf. cbn -[_read_json_safely]. rewrite !Hf.
  cbn -[_read_json_safely]. fold k.
  assert (bool_decide (pv_get (_settings_cache w) k = None)
          || negb (pv_get (_last_modified w) k =? f_mtime f) = true) as ->.
  { destruct Hc as [Hc|Hc].
    - by rewrite bool_decide_eq_true_2.
    - apply Z.eqb_neq in Hc. rewrite Hc. by rewrite orb_true_r. }
  destruct (_read_json_safely _ w) as [[r|e] w1] eqn:Hr; cbn.
  - unfold set_last_modified. cbn. by destruct k.
  - by rewrite (_read_json_safely_no_OSError _ _ _ _ Hr).
Qed.

Lemma _write_json_safely_cases p data k w :
  _write_json_safely p data k w =
    if bool_decide (dot_tmp p ∈ unwritable w)
    then (Ok false, write_refused p w)
    else if bool_decide (p ∈ unwritable w)
    then (Ok false, move_refused p data w)
    else (Ok true, written p data k w).
Proof.
  unfold _write_json_safely, bind, try_except, os_makedirs_dirname, ret,
    open_json_dump, shutil_move, set_cache, os_path_getmtime,
    set_last_modified, logger.
  case_bool_decide; [done|]. cbn.
  rewrite lookup_insert_eq. cbn.
  case_bool_decide; [done|]. cbn.
  rewrite lookup_insert_eq. done.
Qed.

(** The loop of [get_setting] raises nothing but the two exceptions that
    [get_setting] catches. *)
Lemma traverse_raises keys : ∀ d e,
  traverse d keys = Raise e → is_KeyError_or_TypeError e = true.
Proof.
  induction keys as [|key keys IH]; intros d e; [done|].
  rewrite traverse_step. destruct (getitem d key) as [v|e'] eqn:Hg.
  - apply IH.
  - intros [= <-]. destruct d as [| | | | |m]; cbn in Hg; try by inversion Hg.
    destruct (dict_get m key); by inversion Hg.
Qed.

Lemma get_setting_unfold key_path default yim_version w :
  get_setting key_path default yim_version w =
    match _get_settings_with_cache yim_version w with
    | (Ok data, w1) =>
        (Ok (found_or default (deref (heap w1) data) (split_dot key_path)), w1)
    | (Raise e, w1) => (Raise e, w1)
    end.
Proof.
  unfold get_setting, bind.
  destruct (_get_settings_with_cache yim_version w) as [[data|e] w1]; [|done].
  unfold read_ref, try_except, found_or, ret.
  destruct (traverse _ _) as [v|e] eqn:Ht; [done|].
  by rewrite (traverse_raises _ _ _ Ht).
Qed.

Lemma set_setting_unfold key_path value yim_version w :
  set_setting key_path value yim_version w =
    match _get_settings_with_cache yim_version w with
    | (Ok data, w1) =>
        match assign (deref (heap w1) data) (split_dot key_path) value with
        | Ok d' =>
            _write_json_safely (_get_file_path yim_version) data
              (version_key_of yim_version) (mutated data d' w1)
        | Raise e =>
            (Ok false,
             with_log w1 (log_error_traversing yim_version e :: log w1))
        end
    | (Raise e, w1) => (Raise e, w1)
    end.
Proof.
  unfold set_setting, bind.
  destruct (_get_settings_with_cache yim_version w) as [[data|e] w1]; [|done].
  unfold read_ref, try_except, ret, write_ref, mutated, logger. cbn.
  destruct (assign _ _ _) as [d'|e]; [|done].
  by destruct data.
Qed.

(** The mutation reaches the object: a reference to a [dict] is a valid
    address. *)
Lemma deref_mutated data d d' w :
  deref (heap w) data = d → isinstance_dict d = true →
  deref (heap (mutated data d' w)) data = d'.
Proof.
  intros <- Hd. destruct data as [l|]; [|done]. cbn in *.
  destruct (heap w !! l) as [x|] eqn:Hl; [|done].
  apply lookup_lt_Some in Hl. by rewrite list_lookup_insert_eq.
Qed.

Lemma pv_get_set_eq {A} (d : per_version A) k x : pv_get (pv_set d k x) k = x.
Proof. by destruct k. Qed.

Lemma pv_get_set_ne {A} (d : per_version A) k k' x :
  k ≠ k' → pv_get (pv_set d k x) k' = pv_get d k'.
Proof. by destruct k, k'. Qed.

Arguments pv_get : simpl never.
Arguments pv_set : simpl never.

Lemma _get_file_path_key yim_version :
  _get_file_path yim_version = SETTINGS_FILE_PATHS (version_key_of yim_version).
Proof. reflexivity. Qed.

Lemma SETTINGS_FILE_PATHS_inj k k' :
  SETTINGS_FILE_PATHS k = SETTINGS_FILE_PATHS k' → k = k'.
Proof. by destruct k, k'. Qed.

(** A successful [set_setting] ends in [written], on the mutated document. *)
Lemma set_setting_true_inv key_path value yim_version w w' :
  set_setting key_path value yim_version w = (Ok true, w') →
  ∃ data w1 d',
    _get_settings_with_cache yim_version w = (Ok data, w1) ∧
    assign (deref (heap w1) data) (split_dot key_path) value = Ok d' ∧
    deref (heap w') data = d' ∧
    w' = written (_get_file_path yim_version) data
           (version_key_of yim_version) (mutated data d' w1).
Proof.
  rewrite set_setting_unfold.
  destruct (_get_settings_with_cache yim_version w) as [[data|e] w1]; [|done].
  destruct (assign _ _ _) as [d'|e] eqn:Ha; [|done].
  rewrite _write_json_safely_cases.
  repeat case_bool_decide; try done.
  intros [= <-]. exists data, w1, d'. repeat split; try done.
  destruct (assign_Ok_inv _ _ _ _ Ha) as (_ & Hd & _).
  by apply (deref_mutated data _ d' w1 eq_refl).
Qed.

(** ** Reading a key path that is not there *)

Lemma unreachable_traverse d keys :
  unreachable d keys → ∃ e, traverse d keys = Raise e.
Proof.
  induction 1 as [m key keys Hget|d key keys Hd|m key x keys Hget _ [e IH]];
    rewrite traverse_step.
  - cbn. rewrite Hget. eauto.
  - destruct d; try done; cbn; eauto.
  - cbn. rewrite Hget. eauto.
Qed.

Lemma traverse_unreachable keys : ∀ d e,
  traverse d keys = Raise e → unreachable d keys.
Proof.
  induction keys as [|key keys IH]; intros d e; [done|].
  rewrite traverse_step.
  destruct d as [| | | | |m]; try (intros _; by apply not_a_mapping).
  cbn. destruct (dict_get m key) as [x|] eqn:Hget.
  - intros H. eapply unreachable_below; eauto.
  - intros _. by apply segment_absent.
Qed.

Lemma found_or_unreachable default d keys :
  unreachable d keys → found_or default d keys = default.
Proof.
  intros [e He]%unreachable_traverse. unfold found_or. by rewrite He.
Qed.

(** The three ways through [_get_settings_with_cache]. *)
Lemma _get_settings_with_cache_cases yim_version w :
  let k := version_key_of yim_version in
  let p := _get_file_path yim_version in
  (files w !! p = None ∧
   _get_settings_with_cache yim_version w =
     (Ok (Some (length (heap w))), with_heap w (heap w ++ [JDict []])))
  ∨ (∃ f, files w !! p = Some f ∧
          pv_get (_settings_cache w) k ≠ None ∧
          pv_get (_last_modified w) k = f_mtime f ∧
          _get_settings_with_cache yim_version w =
            (Ok (pv_get (_settings_cache w) k), w))
  ∨ (∃ f, files w !! p = Some f ∧
          (pv_get (_settings_cache w) k = None ∨
           pv_get (_last_modified w) k ≠ f_mtime f) ∧
          _get_settings_with_cache yim_version w =
            match _read_json_safely p w with
            | (Ok r, w1) =>
                (Ok r,
                 with_last_modified
                   (with_cache w1 (pv_set (_settings_cache w1) k r))
                   (pv_set (_last_modified w1) k (f_mtime f)))
            | (Raise e, w1) => (Raise e, w1)
            end).
Proof.
  intros k p. destruct (files w !! p) as [f|] eqn:Hf.
  - right.
    destruct (decide (pv_get (_settings_cache w) k = None)) as [Hc|Hc].
    { right. exists f. split_and!; auto.
      by apply (_get_settings_with_cache_refresh _ f); auto. }
    destruct (decide (pv_get (_last_modified w) k = f_mtime f)) as [Hm|Hm].
    + left. exists f. split_and!; auto.
      by apply (_get_settings_with_cache_hit _ f).
    + right. exists f. split_and!; auto.
      by apply (_get_settings_with_cache_refresh _ f); auto.
  - left. split; [done|]. by apply _get_settings_with_cache_missing.
Qed.

(** The only exception that leaves [_get_settings_with_cache] is the
    decoding error of a file that is not UTF-8. *)
Lemma _get_settings_with_cache_raises yim_version w e w' :
  _get_settings_with_cache yim_version w = (Raise e, w') →
  e = UnicodeDecodeError.
Proof.
  destruct (_get_settings_with_cache_cases yim_version w)
    as [[_ ->]|[(f & _ & _ & _ & ->)|(f & _ & _ & ->)]]; try done.
  destruct (_read_json_safely _ w) as [[r|e'] w1] eqn:Hr; [done|].
  intros [= <- _]. by eapply _read_json_safely_no_OSError.
Qed.

(** C2.  [get_setting] returns the default it was given whenever the key
    path leaves the document (a segment is absent, or a value on the way is
    not a mapping), and it raises neither [KeyError] nor [TypeError]: an
    exception that leaves it comes from reading the file, not from the keys. *)
Theorem get_setting_default_never_raises key_path default yim_version w :
  (∀ data w1,
     _get_settings_with_cache yim_version w = (Ok data, w1) →
     unreachable (deref (heap w1) data) (split_dot key_path) →
     get_setting key_path default yim_version w = (Ok default, w1))
  ∧ (∀ data w1,
       _get_settings_with_cache yim_version w = (Ok data, w1) →
       is_Ok (get_setting key_path default yim_version w).1 = true)
  ∧ (∀ e,
       (get_setting key_path default yim_version w).1 = Raise e →
       e = UnicodeDecodeError ∧
       (_get_settings_with_cache yim_version w).1 = Raise e).
Proof.
  rewrite get_setting_unfold. split_and!.
  - intros data w1 -> Hu. by rewrite found_or_unreachable.
  - by intros data w1 ->.
  - intros e.
    destruct (_get_settings_with_cache yim_version w) as [[data|e'] w1] eqn:Hf;
      [done|].
    cbn. intros [= ->]. split; [|done].
    by eapply _get_settings_with_cache_raises.
Qed.

Lemma get_setting_default_never_raises_witness :
  let w := (set_setting "a.b.c" (JNum 42) "v1" fresh_world).2 in
  _get_settings_with_cache "v1" w = (Ok (Some 0%nat), w) ∧
  unreachable (deref (heap w) (Some 0%nat)) (split_dot "a.b.x") ∧
  get_setting "a.b.x" (JStr "none") "v1" w = (Ok (JStr "none"), w).
Proof.
  intros w.
  assert (Hf : _get_settings_with_cache "v1" w = (Ok (Some 0%nat), w))
    by (vm_compute; reflexivity).
  assert (Hu : unreachable (deref (heap w) (Some 0%nat)) (split_dot "a.b.x")).
  { eapply unreachable_below; [reflexivity|].
    eapply unreachable_below; [reflexivity|].
    apply segment_absent. reflexivity. }
  split; [exact Hf|]. split; [exact Hu|].
  exact (proj1 (get_setting_default_never_raises "a.b.x" (JStr "none") "v1" w)
           (Some 0%nat) w Hf Hu).
Defined.

(** ** A settings file that is not valid JSON *)

(** C3, as amended.  A read that finds a JSON syntax error in the settings
    file returns an empty mapping and logs a warning; the empty mapping is
    stored in the cache entry with the timestamp of the file, and the next
    read of the unchanged file returns that cached mapping without opening
    the file again. *)
Theorem malformed_read_cached yim_version f w :
  let k := version_key_of yim_version in
  let w1 := cached_empty k f w in
  files w !! _get_file_path yim_version = Some f →
  f_content f = BadSyntax →
  _get_file_path yim_version ∉ unreadable w →
  pv_get (_settings_cache w) k = None ∨
    pv_get (_last_modified w) k ≠ f_mtime f →
  _get_settings_with_cache yim_version w = (Ok (Some (length (heap w))), w1)
  ∧ deref (heap w1) (Some (length (heap w))) = JDict []
  ∧ (∃ r, log w1 = r :: log w ∧ log_level r = WARNING)
  ∧ pv_get (_settings_cache w1) k = Some (length (heap w))
  ∧ pv_get (_last_modified w1) k = f_mtime f
  ∧ _get_settings_with_cache yim_version w1 = (Ok (Some (length (heap w))), w1).
Proof.
  intros k w1 Hf Hbad Hr Hmiss.
  assert (Hc : pv_get (_settings_cache w1) k = Some (length (heap w)))
    by apply pv_get_set_eq.
  assert (Hm : pv_get (_last_modified w1) k = f_mtime f)
    by apply pv_get_set_eq.
  split_and!; try done.
  - rewrite (_get_settings_with_cache_refresh _ f) by done.
    rewrite (_read_json_safely_exists _ f) by done.
    rewrite bool_decide_eq_false_2 by done. by rewrite Hbad.
  - cbn. by rewrite lookup_app_r, Nat.sub_diag.
  - eexists. split; [reflexivity|done].
  - rewrite (_get_settings_with_cache_hit yim_version f w1); fold k.
    + by rewrite Hc.
    + done.
    + by rewrite Hc.
    + done.
Qed.

Lemma malformed_read_cached_witness :
  let f := File BadSyntax 7 in
  let w := malformed_world in
  let w1 := cached_empty v1 f w in
  files w !! _get_file_path "v1" = Some f ∧
  f_content f = BadSyntax ∧
  (_get_file_path "v1" ∉ unreadable w) ∧
  pv_get (_settings_cache w) v1 = None ∧
  _get_settings_with_cache "v1" w1 = (Ok (Some 0%nat), w1).
Proof.
  intros f w w1.
  assert (H1 : files w !! _get_file_path "v1" = Some f) by reflexivity.
  assert (H2 : f_content f = BadSyntax) by reflexivity.
  assert (H3 : _get_file_path "v1" ∉ unreadable w) by (by vm_compute).
  assert (H4 : pv_get (_settings_cache w) v1 = None) by reflexivity.
  refine (conj H1 (conj H2 (conj H3 (conj H4 _)))).
  exact (proj2 (proj2 (proj2 (proj2 (proj2
           (malformed_read_cached "v1" f w H1 H2 H3 (or_introl H4))))))).
Defined.

(** C3 as the specification states it fails on [malformed_world]: after the
    read, the cache entry is not empty any more, and the second read does no
    input or output at all, so it does not parse the file again. *)
Lemma malformed_read_not_retried :
  let w1 := (_get_settings_with_cache "v1" malformed_world).2 in
  let w2 := (_get_settings_with_cache "v1" w1).2 in
  ¬ (pv_get (_settings_cache w1) v1 = None ∨ io w2 ≠ io w1).
Proof.
  intros w1 w2 [H|H].
  - vm_compute in H. discriminate.
  - apply H. vm_compute. reflexivity.
Qed.

(** ** When the cache is used *)

(** Reading an existing file opens it, and touches neither the files nor the
    manager. *)
Lemma _read_json_safely_frame p f w :
  files w !! p = Some f →
  let w1 := (_read_json_safely p w).2 in
  io w1 = io_open_r p :: io w ∧ files w1 = files w ∧
  unreadable w1 = unreadable w ∧ unwritable w1 = unwritable w ∧
  now w1 = now w ∧
  _settings_cache w1 = _settings_cache w ∧ _last_modified w1 = _last_modified w.
Proof.
  intros Hf. rewrite (_read_json_safely_exists _ f) by done.
  case_bool_decide; [done|].
  destruct (f_content f) as [[]| |]; done.
Qed.


(** After a read that returned, the entry carries the timestamp of the file
    that was there. *)
Lemma _get_settings_with_cache_stamp yim_version f w r w1 :
  files w !! _get_file_path yim_version = Some f →
  _get_settings_with_cache yim_version w = (Ok r, w1) →
  pv_get (_last_modified w1) (version_key_of yim_version) = f_mtime f ∧
  pv_get (_settings_cache w1) (version_key_of yim_version) = r ∧
  files w1 = files w ∧ unreadable w1 = unreadable w ∧
  unwritable w1 = unwritable w.
Proof.
  intros Hf.
  destruct (_get_settings_with_cache_cases yim_version w)
    as [[Hn _]|[(f' & Hf' & Hc & Hm & ->)|(f' & Hf' & _ & ->)]].
  - congruence.
  - intros [= <- <-]. split_and!; congruence.
  - assert (f' = f) as -> by congruence.
    destruct (_read_json_safely_frame _ _ _ Hf) as (_ & Hfs & Hu & Hu' & _).
    destruct (_read_json_safely _ w) as [[r'|e] w'] eqn:Hr; [|done].
    intros [= <- <-]. cbn in *. by rewrite !pv_get_set_eq.
Qed.



(** ** A write that fails *)

Lemma dot_tmp_SETTINGS_FILE_PATHS k k' :
  dot_tmp (SETTINGS_FILE_PATHS k) ≠ SETTINGS_FILE_PATHS k'.
Proof. by destruct k, k'. Qed.



(** ** The default settings file *)

(** C6.  Without a settings file, [ensure_settings_file_exists] writes the
    default document, exactly, provided the file system takes the write, and
    the four documented settings then read as [False]; when the write is
    refused there is still no settings file.  With a settings file, whatever
    it holds, nothing happens at all. *)
Theorem ensure_settings_file_exists_default yim_version w :
  let p := _get_file_path yim_version in
  (files w !! p = None →
   dot_tmp p ∉ unwritable w → p ∉ unwritable w →
   ∃ w',
     ensure_settings_file_exists yim_version w = (Ok tt, w')
     ∧ files w' !! p =
         Some (File (Json (JDict
           [("lua", JDict [("auto_reload_scripts", JBool false);
                           ("auto_reload_changed_scripts", JBool false)]);
            ("debug", JDict [("external_console", JBool false)]);
            ("theme", JDict [("light_mode", JBool false)])])) (now w))
     ∧ ∀ key_path default,
         key_path ∈ ["lua.auto_reload_scripts";
                     "lua.auto_reload_changed_scripts";
                     "debug.external_console"; "theme.light_mode"] →
         (get_setting key_path default yim_version w').1 = Ok (JBool false))
  ∧ (files w !! p = None →
     dot_tmp p ∈ unwritable w ∨ p ∈ unwritable w →
     ∃ w',
       ensure_settings_file_exists yim_version w = (Ok tt, w')
       ∧ files w' !! p = None)
  ∧ (∀ f, files w !! p = Some f →
          ensure_settings_file_exists yim_version w = (Ok tt, w)).
Proof.
  intros p. split_and!.
  - intros Hf H1 H2.
    unfold ensure_settings_file_exists, bind, os_path_exists.
    fold p. rewrite Hf. cbn -[_write_json_safely].
    rewrite _write_json_safely_cases. fold p. cbn [unwritable with_heap].
    rewrite !bool_decide_eq_false_2 by done.
    eexists. split; [reflexivity|].
    assert (Hfile : ∀ d t,
      files (with_log (written p (Some (length (heap w)))
                         (version_key_of yim_version)
                         (with_heap w (heap w ++ [d]))) t) !! p
      = Some (File (Json d) (now w))).
    { intros d t. cbn. rewrite lookup_insert_eq.
      by rewrite lookup_app_r, Nat.sub_diag. }
    split; [apply Hfile|].
    intros key_path default Hin.
    rewrite get_setting_unfold.
    erewrite _get_settings_with_cache_hit; [|apply Hfile| |].
    + cbn. rewrite pv_get_set_eq. cbn.
      rewrite lookup_app_r, Nat.sub_diag by done. cbn.
      repeat (apply elem_of_cons in Hin as [->|Hin]; [reflexivity|]).
      by apply elem_of_nil in Hin.
    + cbn. by rewrite pv_get_set_eq.
    + cbn. by rewrite pv_get_set_eq.
  - intros Hf Hdenied.
    unfold ensure_settings_file_exists, bind, os_path_exists.
    fold p. rewrite Hf. cbn -[_write_json_safely].
    rewrite _write_json_safely_cases. fold p. cbn [unwritable with_heap].
    case_bool_decide.
    + eexists. split; [reflexivity|]. done.
    + destruct Hdenied as [|H2]; [done|].
      rewrite bool_decide_eq_true_2 by done.
      eexists. split; [reflexivity|]. cbn.
      rewrite lookup_insert_ne; [done|].
      unfold p. rewrite _get_file_path_key. apply dot_tmp_SETTINGS_FILE_PATHS.
  - intros f Hf.
    unfold ensure_settings_file_exists, bind, os_path_exists.
    fold p. by rewrite Hf.
Qed.

Lemma ensure_settings_file_exists_default_witness :
  let p := YIMMENUV2_SETTINGS_FILE_PATH in
  files fresh_world !! p = None ∧
  (dot_tmp p ∉ unwritable fresh_world) ∧
  (p ∉ unwritable fresh_world) ∧
  (∃ w',
     ensure_settings_file_exists "v2" fresh_world = (Ok tt, w')
     ∧ files w' !! p = Some (File (Json default_settings) 100)) ∧
  files malformed_world !! YIMMENU_SETTINGS_FILE_PATH = Some (File BadSyntax 7) ∧
  ensure_settings_file_exists "v1" malformed_world = (Ok tt, malformed_world).
Proof.
  intros p.
  assert (H1 : files fresh_world !! _get_file_path "v2" = None)
    by (vm_compute; reflexivity).
  assert (H2 : dot_tmp (_get_file_path "v2") ∉ unwritable fresh_world)
    by (by vm_compute).
  assert (H3 : _get_file_path "v2" ∉ unwritable fresh_world)
    by (by vm_compute).
  assert (H4 : files malformed_world !! _get_file_path "v1"
               = Some (File BadSyntax 7)) by (vm_compute; reflexivity).
  pose proof (ensure_settings_file_exists_default "v2" fresh_world)
    as (Ha & _ & _).
  pose proof (ensure_settings_file_exists_default "v1" malformed_world)
    as (_ & _ & Hc).
  refine (conj H1 (conj H2 (conj H3 (conj _ (conj H4 (Hc _ H4)))))).
  destruct (Ha H1 H2 H3) as (w' & He & Hf & _).
  exists w'. exact (conj He Hf).
Defined.

(** ** Writing through a value that is not a mapping *)

Lemma assign_empty rest : ∀ value,
  rest ≠ [] → assign (JDict []) rest value = Ok (nested rest value).
Proof.
  induction rest as [|key rest IH]; intros value Hne; [done|].
  destruct rest as [|key' rest']; [done|].
  rewrite assign_step_dict. cbn [child_dict dict_get].
  by rewrite IH.
Qed.

Lemma assign_through_scalar pre : ∀ d rest value x d',
  pre ≠ [] → rest ≠ [] →
  traverse d pre = Ok x → isinstance_dict x = false →
  assign d (pre ++ rest) value = Ok d' →
  traverse d' pre = Ok (nested rest value).
Proof.
  induction pre as [|key pre IH]; intros d rest value x d' Hpre Hrest Ht Hx Ha;
    [done|].
  rewrite traverse_step in Ht.
  destruct d as [| | | | |m]; try done. cbn [getitem] in Ht.
  destruct (dict_get m key) as [y|] eqn:Hget; [|done].
  destruct pre as [|key2 pre'].
  - cbn in Ht. inversion Ht; subst y.
    destruct rest as [|key' rest']; [done|].
    cbn [app] in Ha. rewrite assign_step_dict in Ha.
    unfold child_dict in Ha. rewrite Hget in Ha.
    assert (assign (JDict []) (key' :: rest') value
            = Ok (nested (key' :: rest') value)) as Hn by by apply assign_empty.
    destruct x; try done; rewrite Hn in Ha; inversion Ha; subst;
      rewrite traverse_step; cbn [getitem]; by rewrite dict_get_set_eq.
  - assert (Hy : ∃ my, y = JDict my).
    { rewrite traverse_step in Ht. destruct y; try done. eauto. }
    destruct Hy as [my ->].
    change ((key :: key2 :: pre') ++ rest)%list
      with (key :: key2 :: (pre' ++ rest))%list in Ha.
    rewrite assign_step_dict in Ha. unfold child_dict in Ha.
    rewrite Hget in Ha.
    destruct (assign (JDict my) _ value) as [child'|] eqn:Hc; [|done].
    inversion Ha; subst.
    rewrite traverse_step. cbn [getitem]. rewrite dict_get_set_eq.
    eapply (IH (JDict my) rest value x); eauto.
Qed.

(** C8.  When the key path runs, before its last key, into a value that is
    not a mapping, a successful [set_setting] puts a new mapping in its place
    that holds nothing but the rest of the key path and the value; the
    document written to the file and the cached one are that document.
    With [{"lua": true}] on disk, setting [lua.auto_reload_scripts] to
    [False] writes [{"lua": {"auto_reload_scripts": false}}]. *)
Theorem set_setting_replaces_non_mapping
    key_path value yim_version w w' data w1 pre rest x :
  let k := version_key_of yim_version in
  let p := _get_file_path yim_version in
  _get_settings_with_cache yim_version w = (Ok data, w1) →
  split_dot key_path = (pre ++ rest)%list → pre ≠ [] → rest ≠ [] →
  traverse (deref (heap w1) data) pre = Ok x →
  isinstance_dict x = false →
  set_setting key_path value yim_version w = (Ok true, w') →
  (∃ doc' t,
     files w' !! p = Some (File (Json doc') t)
     ∧ deref (heap w') (pv_get (_settings_cache w') k) = doc'
     ∧ traverse doc' pre = Ok (nested rest value))
  ∧ ∃ w2,
      set_setting "lua.auto_reload_scripts" (JBool false) "v1" lua_true_world
        = (Ok true, w2)
      ∧ files w2 !! YIMMENU_SETTINGS_FILE_PATH =
          Some (File (Json (JDict
                  [("lua", JDict [("auto_reload_scripts", JBool false)])]))
                  100).
Proof.
  intros k p Hfetch Hsplit Hpre Hrest Ht Hx Hset. split.
  - destruct (set_setting_true_inv _ _ _ _ _ Hset)
      as (data' & w1' & d' & Hfetch' & Ha & Hd & ->).
    rewrite Hfetch in Hfetch'. inversion Hfetch'; subst data' w1'.
    rewrite Hsplit in Ha.
    exists d', (now (mutated data d' w1)). split_and!.
    + cbn. rewrite lookup_insert_eq. do 3 f_equal. exact Hd.
    + unfold written at 2. cbn [_settings_cache]. by rewrite pv_get_set_eq.
    + by apply (assign_through_scalar pre (deref (heap w1) data) rest value x).
  - eexists. split; vm_compute; reflexivity.
Qed.

Lemma set_setting_replaces_non_mapping_witness :
  let w := lua_true_world in
  let w1 := (_get_settings_with_cache "v1" w).2 in
  let w' := (set_setting "lua.auto_reload_scripts" (JBool false) "v1" w).2 in
  _get_settings_with_cache "v1" w = (Ok (Some 0%nat), w1) ∧
  split_dot "lua.auto_reload_scripts" = (["lua"] ++ ["auto_reload_scripts"])%list ∧
  traverse (deref (heap w1) (Some 0%nat)) ["lua"] = Ok (JBool true) ∧
  isinstance_dict (JBool true) = false ∧
  set_setting "lua.auto_reload_scripts" (JBool false) "v1" w = (Ok true, w') ∧
  ∃ doc' t,
    files w' !! YIMMENU_SETTINGS_FILE_PATH = Some (File (Json doc') t)
    ∧ deref (heap w') (pv_get (_settings_cache w') v1) = doc'
    ∧ traverse doc' ["lua"] = Ok (JDict [("auto_reload_scripts", JBool false)]).
Proof.
  intros w w1 w'.
  assert (H1 : _get_settings_with_cache "v1" w = (Ok (Some 0%nat), w1))
    by (vm_compute; reflexivity).
  assert (H2 : split_dot "lua.auto_reload_scripts"
               = (["lua"] ++ ["auto_reload_scripts"])%list) by reflexivity.
  assert (H3 : traverse (deref (heap w1) (Some 0%nat)) ["lua"]
               = Ok (JBool true)) by reflexivity.
  assert (H4 : isinstance_dict (JBool true) = false) by reflexivity.
  assert (H5 : set_setting "lua.auto_reload_scripts" (JBool false) "v1" w
               = (Ok true, w')) by (vm_compute; reflexivity).
  refine (conj H1 (conj H2 (conj H3 (conj H4 (conj H5 _))))).
  exact (proj1 (set_setting_replaces_non_mapping "lua.auto_reload_scripts"
                  (JBool false) "v1" w w' (Some 0%nat) w1 ["lua"]
                  ["auto_reload_scripts"] (JBool true)
                  H1 H2 ltac:(discriminate) ltac:(discriminate) H3 H4 H5)).
Defined.

(** ** The two installations do not share anything *)

Lemma deref_new h j : deref (h ++ [j]) (Some (length h)) = j.
Proof. cbn. by rewrite lookup_app_r, Nat.sub_diag. Qed.

Lemma deref_app h extra r :
  (∀ l, r = Some l → (l < length h)%nat) →
  deref (h ++ extra) r = deref h r.
Proof.
  intros Hr. destruct r as [l|]; [|done]. cbn.
  by rewrite lookup_app_l by auto.
Qed.

(** [_read_json_safely] returns [None] or a new object, and leaves the rest
    of the state alone. *)
Lemma _read_json_safely_alloc p w r w1 :
  _read_json_safely p w = (Ok r, w1) →
  ((r = None ∧ heap w1 = heap w) ∨
   (∃ j, r = Some (length (heap w)) ∧ heap w1 = heap w ++ [j]))
  ∧ files w1 = files w ∧ unreadable w1 = unreadable w
  ∧ unwritable w1 = unwritable w ∧ now w1 = now w
  ∧ _settings_cache w1 = _settings_cache w
  ∧ _last_modified w1 = _last_modified w.
Proof.
  destruct (files w !! p) as [f|] eqn:Hf.
  - rewrite (_read_json_safely_exists _ f) by done.
    case_bool_decide.
    { intros [= <- <-]. split_and!; try done. right. by eexists. }
    destruct (f_content f) as [j| |].
    + destruct j; cbn; intros [= <- <-]; split_and!; try done;
        try (right; by eexists). by left.
    + intros [= <- <-]. split_and!; try done. right. by eexists.
    + done.
  - rewrite _read_json_safely_missing by done.
    intros [= <- <-]. split_and!; try done. right. by eexists.
Qed.

Lemma doc_of_read_json_safely p f w :
  files w !! p = Some f →
  doc_of (_read_json_safely p w) =
    if bool_decide (p ∈ unreadable w) then Ok (JDict [])
    else match f_content f with
         | Json j => Ok j
         | BadSyntax => Ok (JDict [])
         | BadEncoding => Raise UnicodeDecodeError
         end.
Proof.
  intros Hf. rewrite (_read_json_safely_exists _ f) by done.
  case_bool_decide.
  { unfold doc_of, read_failed. cbn [heap]. by rewrite deref_new. }
  destruct (f_content f) as [j| |]; try done.
  - destruct j; try done; unfold doc_of, new_object; cbn [heap with_io with_heap];
      by rewrite deref_new.
  - unfold doc_of, read_failed. cbn [heap]. by rewrite deref_new.
Qed.

Lemma doc_of_get_settings_with_cache yim_version w :
  doc_of (_get_settings_with_cache yim_version w)
  = fetched (version_key_of yim_version) w.
Proof.
  unfold fetched. rewrite <- _get_file_path_key.
  destruct (_get_settings_with_cache_cases yim_version w)
    as [[Hf ->]|[(f & Hf & Hc & Hm & ->)|(f & Hf & Hmiss & ->)]];
    rewrite Hf.
  - unfold doc_of. cbn [heap with_heap]. by rewrite deref_new.
  - rewrite Hm, Z.eqb_refl, bool_decide_eq_false_2 by done. done.
  - assert (bool_decide
              (pv_get (_settings_cache w) (version_key_of yim_version) = None)
            || negb (pv_get (_last_modified w) (version_key_of yim_version)
                     =? f_mtime f) = true) as ->.
    { destruct Hmiss as [Hc|Hm].
      - by rewrite bool_decide_eq_true_2.
      - apply Z.eqb_neq in Hm. rewrite Hm. by rewrite orb_true_r. }
    rewrite <- (doc_of_read_json_safely _ f) by done.
    by destruct (_read_json_safely _ w) as [[r|e] w1].
Qed.

(** The result of [get_setting] is a function of [fetched]. *)
Lemma get_setting_fetched key_path default yim_version w :
  (get_setting key_path default yim_version w).1 =
    match fetched (version_key_of yim_version) w with
    | Ok doc => Ok (found_or default doc (split_dot key_path))
    | Raise e => Raise e
    end.
Proof.
  rewrite get_setting_unfold, <- doc_of_get_settings_with_cache.
  by destruct (_get_settings_with_cache yim_version w) as [[r|e] w1].
Qed.

Lemma fetched_same_installation k w w' :
  same_installation k w w' → fetched k w' = fetched k w.
Proof.
  intros (Hf & Hu & Hc & Hm & Hd). unfold fetched.
  by rewrite Hf, Hu, Hc, Hm, Hd.
Qed.

Lemma _read_json_safely_raises p w e w1 :
  _read_json_safely p w = (Raise e, w1) →
  e = UnicodeDecodeError ∧ w1 = with_io w (io_open_r p :: io w).
Proof.
  destruct (files w !! p) as [f|] eqn:Hf.
  - rewrite (_read_json_safely_exists _ f) by done.
    case_bool_decide; [done|].
    destruct (f_content f) as [[]| |]; cbn; try done. by intros [= <- <-].
  - by rewrite _read_json_safely_missing.
Qed.

(** What [_get_settings_with_cache] does to the state: the environment is
    read only, the heap grows, the entry of the other installation stays, and
    the entry of this one stays or becomes the reference that is returned,
    which is then [None] or a new object. *)
Lemma _get_settings_with_cache_effect yim_version w r w1 :
  let k := version_key_of yim_version in
  _get_settings_with_cache yim_version w = (r, w1) →
  files w1 = files w ∧ unreadable w1 = unreadable w
  ∧ unwritable w1 = unwritable w ∧ now w1 = now w
  ∧ (∃ extra, heap w1 = heap w ++ extra)
  ∧ (∀ k', k' ≠ k →
       pv_get (_settings_cache w1) k' = pv_get (_settings_cache w) k'
       ∧ pv_get (_last_modified w1) k' = pv_get (_last_modified w) k')
  ∧ (pv_get (_settings_cache w1) k = pv_get (_settings_cache w) k
     ∨ pv_get (_settings_cache w1) k = None
     ∨ (pv_get (_settings_cache w1) k = Some (length (heap w))
        ∧ length (heap w1) = S (length (heap w))))
  ∧ (∀ data, r = Ok data →
       data = pv_get (_settings_cache w1) k
       ∨ (data = Some (length (heap w))
          ∧ length (heap w1) = S (length (heap w)))).
Proof.
  intros k.
  destruct (_get_settings_with_cache_cases yim_version w)
    as [[Hf ->]|[(f & Hf & Hc & Hm & ->)|(f & Hf & Hmiss & ->)]].
  - intros [= <- <-]. cbn. split_and!; try done.
    + by eexists.
    + by left.
    + intros data [= <-]. right. split; [done|].
      rewrite length_app. cbn. lia.
  - intros [= <- <-]. split_and!; try done.
    + exists []. by rewrite app_nil_r.
    + by left.
    + intros data [= <-]. by left.
  - destruct (_read_json_safely _ w) as [[r'|e] w'] eqn:Hr.
    + destruct (_read_json_safely_alloc _ _ _ _ Hr)
        as (Halloc & Hfs & Hu & Hu' & Hn & Hc & Hm).
      intros [= <- <-]. cbn. fold k. rewrite Hc, Hm, !pv_get_set_eq.
      split_and!; try done.
      * destruct Halloc as [[_ ->]|(j & _ & ->)]; [exists []|exists [j]];
          by rewrite ?app_nil_r.
      * intros k' Hk'. by rewrite !pv_get_set_ne.
      * destruct Halloc as [[-> _]|(j & -> & ->)]; [by right; left|].
        right; right. split; [done|]. rewrite length_app. cbn. lia.
      * intros data [= <-]. by left.
    + apply _read_json_safely_raises in Hr as [_ ->].
      intros [= <- <-]. split_and!; try done.
      * exists []. by rewrite app_nil_r.
      * by left.
Qed.

Lemma same_installation_refl k w : same_installation k w w.
Proof. by repeat split. Qed.

Lemma same_installation_trans k w1 w2 w3 :
  same_installation k w1 w2 → same_installation k w2 w3 →
  same_installation k w1 w3.
Proof.
  intros (Hf & Hu & Hc & Hm & Hd) (Hf' & Hu' & Hc' & Hm' & Hd').
  repeat split; congruence.
Qed.

Lemma version_key_other (k k0 k' : version_key) : k0 ≠ k → k' ≠ k0 → k' = k.
Proof. by destruct k, k0, k'. Qed.

(** [_get_settings_with_cache] keeps the heap well formed, does not touch
    what the other installation reads, and returns a reference that the
    entry of the other installation does not hold. *)
Lemma _get_settings_with_cache_wf yim_version w r w1 :
  let k := version_key_of yim_version in
  wf w → _get_settings_with_cache yim_version w = (r, w1) →
  wf w1
  ∧ (∀ k', k' ≠ k → same_installation k' w w1)
  ∧ (∀ l, r = Ok (Some l) →
       (l < length (heap w1))%nat
       ∧ ∀ k', k' ≠ k → pv_get (_settings_cache w1) k' ≠ Some l).
Proof.
  intros k Hwf Hfetch.
  destruct (_get_settings_with_cache_effect _ _ _ _ Hfetch)
    as (Hfs & Hu & _ & _ & [extra Hh] & Hother & Hown & Hdata).
  fold k in Hother, Hown, Hdata.
  assert (Hlen : (length (heap w) ≤ length (heap w1))%nat)
    by (rewrite Hh, length_app; lia).
  assert (Hwf1 : wf w1).
  { intros k0 l Hl. destruct (decide (k0 = k)) as [->|Hk0].
    - destruct Hown as [Ho|[Ho|[Ho Hl1]]].
      + rewrite Ho in Hl. destruct (Hwf _ _ Hl) as [Hlt Hne].
        split; [lia|]. intros k' Hk'.
        destruct (Hother k' Hk') as [-> _]. by apply Hne.
      + congruence.
      + rewrite Ho in Hl. inversion Hl; subst l. split; [lia|].
        intros k' Hk'. destruct (Hother k' Hk') as [-> _].
        intros Hbad. destruct (Hwf _ _ Hbad) as [Hlt _]. lia.
    - destruct (Hother k0 Hk0) as [Hc0 _]. rewrite Hc0 in Hl.
      destruct (Hwf _ _ Hl) as [Hlt Hne]. split; [lia|].
      intros k' Hk'. rewrite (version_key_other k k0 k') by done.
      destruct Hown as [Ho|[Ho|[Ho Hl1]]]; rewrite Ho.
      + apply Hne. congruence.
      + done.
      + intros [= Heq]. lia. }
  split_and!; [done| |].
  - intros k' Hk'. destruct (Hother k' Hk') as [Hc Hm].
    repeat split; try congruence.
    rewrite Hh. apply deref_app. intros l Hl.
    by destruct (Hwf _ _ Hl).
  - intros l ->. destruct (Hdata _ eq_refl) as [Hd|[[= ->] Hl1]].
    + symmetry in Hd. by destruct (Hwf1 _ _ Hd).
    + split; [lia|]. intros k' Hk'. destruct (Hother k' Hk') as [-> _].
      intros Hbad. destruct (Hwf _ _ Hbad) as [Hlt _]. lia.
Qed.

Lemma SETTINGS_FILE_PATHS_ne k k' :
  k' ≠ k → SETTINGS_FILE_PATHS k ≠ SETTINGS_FILE_PATHS k'.
Proof. by destruct k, k'. Qed.

(** The same for [set_setting], whatever it returns. *)
Lemma set_setting_wf key_path value yim_version w r w' :
  let k := version_key_of yim_version in
  wf w → set_setting key_path value yim_version w = (r, w') →
  wf w' ∧ ∀ k', k' ≠ k → same_installation k' w w'.
Proof.
  intros k Hwf. rewrite set_setting_unfold.
  destruct (_get_settings_with_cache yim_version w) as [[data|e] w1] eqn:Hfetch.
  2:{ intros [= <- <-].
      destruct (_get_settings_with_cache_wf _ _ _ _ Hwf Hfetch) as (? & ? & _).
      done. }
  destruct (_get_settings_with_cache_wf _ _ _ _ Hwf Hfetch)
    as (Hwf1 & Hsame1 & Hdata). fold k in Hsame1, Hdata.
  destruct (assign _ _ _) as [d'|e].
  2:{ intros [= <- <-]. split; [done|].
      intros k' Hk'. by apply Hsame1. }
  set (w2 := mutated data d' w1).
  assert (Hc2 : _settings_cache w2 = _settings_cache w1) by by destruct data.
  assert (Hl2 : length (heap w2) = length (heap w1)).
  { destruct data; [|done]. cbn. by rewrite length_insert. }
  assert (Hwf2 : wf w2).
  { intros k0 l. rewrite Hc2, Hl2. apply Hwf1. }
  assert (Hsame2 : ∀ k', k' ≠ k → same_installation k' w1 w2).
  { intros k' Hk'. repeat split; try by destruct data.
    destruct data as [l|]; [|done]. cbn [w2 mutated with_heap heap].
    destruct (Hdata l eq_refl) as [_ Hne].
    destruct (pv_get (_settings_cache w1) k') as [l'|] eqn:Hl'; [|done].
    cbn. rewrite list_lookup_insert_ne; [done|].
    intros ->. by apply (Hne k'). }
  assert (Hdata2 : ∀ l, data = Some l →
            (l < length (heap w2))%nat
            ∧ ∀ k', k' ≠ k → pv_get (_settings_cache w2) k' ≠ Some l).
  { intros l ->. rewrite Hc2, Hl2. by apply Hdata. }
  clearbody w2. rewrite _write_json_safely_cases. fold k.
  assert (Hstay : ∀ w3,
    _settings_cache w3 = _settings_cache w2 → heap w3 = heap w2 →
    _last_modified w3 = _last_modified w2 → unreadable w3 = unreadable w2 →
    (∀ k', k' ≠ k → files w3 !! SETTINGS_FILE_PATHS k'
                    = files w2 !! SETTINGS_FILE_PATHS k') →
    wf w3 ∧ ∀ k', k' ≠ k → same_installation k' w w3).
  { intros w3 Hc3 Hh3 Hm3 Hu3 Hf3. split.
    - intros k0 l. rewrite Hc3, Hh3. apply Hwf2.
    - intros k' Hk'.
      eapply same_installation_trans; [by apply Hsame1|].
      eapply same_installation_trans; [by apply Hsame2|].
      repeat split; try congruence. by apply Hf3. }
  repeat case_bool_decide; intros [= <- <-].
  - by apply Hstay.
  - apply Hstay; try done. intros k' Hk'. cbn.
    rewrite lookup_insert_ne; [done|].
    rewrite _get_file_path_key. apply dot_tmp_SETTINGS_FILE_PATHS.
  - split.
    + intros k0 l. cbn [written _settings_cache heap].
      destruct (decide (k0 = k)) as [->|Hk0].
      * rewrite pv_get_set_eq. intros ->.
        destruct (Hdata2 l eq_refl) as [Hlt Hne]. split; [done|].
        intros k' Hk'. rewrite pv_get_set_ne by done. by apply Hne.
      * rewrite pv_get_set_ne by done. intros Hl.
        destruct (Hwf2 _ _ Hl) as [Hlt Hne]. split; [done|].
        intros k' Hk'. rewrite (version_key_other k k0 k') by done.
        rewrite pv_get_set_eq. intros ->.
        destruct (Hdata2 l eq_refl) as [_ Hne']. by apply (Hne' k0).
    + intros k' Hk'.
      eapply same_installation_trans; [by apply Hsame1|].
      eapply same_installation_trans; [by apply Hsame2|].
      repeat split; cbn [written files _settings_cache _last_modified heap
                         unreadable]; rewrite ?pv_get_set_ne by done;
        try done.
      rewrite _get_file_path_key.
      rewrite lookup_insert_ne by by apply SETTINGS_FILE_PATHS_ne.
      rewrite lookup_delete_ne by apply dot_tmp_SETTINGS_FILE_PATHS.
      rewrite lookup_insert_ne by apply dot_tmp_SETTINGS_FILE_PATHS.
      done.
Qed.



(** ** Reading back what was written *)

(** After a successful [set_setting] the file holds the document that the
    loop made of the one that was fetched, and every [get_setting] on the
    installation reads from that document. *)
Lemma get_setting_after_set key_path value yim_version w w' :
  set_setting key_path value yim_version w = (Ok true, w') →
  ∃ doc doc',
    fetched (version_key_of yim_version) w = Ok doc
    ∧ assign doc (split_dot key_path) value = Ok doc'
    ∧ files w' !! _get_file_path yim_version = Some (File (Json doc') (now w))
    ∧ ∀ q default other_version,
        version_key_of other_version = version_key_of yim_version →
        (get_setting q default other_version w').1
        = Ok (found_or default doc' (split_dot q)).
Proof.
  intros Hset.
  destruct (set_setting_true_inv _ _ _ _ _ Hset)
    as (data & w1 & d' & Hfetch & Ha & Hd & ->).
  destruct (assign_Ok_inv _ _ _ _ Ha) as (_ & Hdict & _).
  assert (Hdata : data ≠ None) by (by intros ->).
  destruct (_get_settings_with_cache_effect _ _ _ _ Hfetch)
    as (_ & _ & _ & Hnow & _).
  assert (Hnow' : now (mutated data d' w1) = now w) by (by destruct data).
  assert (Hfile : files (written (_get_file_path yim_version) data
                           (version_key_of yim_version) (mutated data d' w1))
                  !! _get_file_path yim_version
                  = Some (File (Json d') (now w))).
  { cbn. rewrite lookup_insert_eq.
    change (heap (written _ _ _ ?w)) with (heap w) in Hd.
    by rewrite Hd, Hnow'. }
  exists (deref (heap w1) data), d'. split_and!; try done.
  - by rewrite <- doc_of_get_settings_with_cache, Hfetch.
  - intros q default other_version Hk.
    rewrite get_setting_unfold.
    rewrite (_get_settings_with_cache_hit other_version
               (File (Json d') (now w))).
    + cbn [fst]. rewrite Hk. unfold written at 2. cbn [_settings_cache].
      by rewrite pv_get_set_eq, Hd.
    + by rewrite !_get_file_path_key, Hk in *.
    + rewrite Hk. cbn. by rewrite pv_get_set_eq.
    + rewrite Hk. cbn. by rewrite pv_get_set_eq, Hnow'.
Qed.

(** C1.  Round trip: when [set_setting] has returned [True], [get_setting]
    on the same key path and the same installation returns the value that
    was set, whatever the default. *)
Theorem set_get_roundtrip key_path value yim_version yim_version' default w w' :
  version_key_of yim_version' = version_key_of yim_version →
  set_setting key_path value yim_version w = (Ok true, w') →
  (get_setting key_path default yim_version' w').1 = Ok value.
Proof.
  intros Hk Hset.
  destruct (get_setting_after_set _ _ _ _ _ Hset)
    as (doc & doc' & _ & Ha & _ & Hget).
  rewrite (Hget _ _ _ Hk). unfold found_or.
  by rewrite (traverse_assign _ _ _ _ Ha).
Qed.

Lemma set_get_roundtrip_witness :
  let w' := (set_setting "a.b.c" (JNum 42) "v1" fresh_world).2 in
  version_key_of "v1" = version_key_of "v1" ∧
  set_setting "a.b.c" (JNum 42) "v1" fresh_world = (Ok true, w') ∧
  (get_setting "a.b.c" (JStr "none") "v1" w').1 = Ok (JNum 42).
Proof.
  intros w'.
  assert (H : set_setting "a.b.c" (JNum 42) "v1" fresh_world = (Ok true, w'))
    by (vm_compute; reflexivity).
  split; [reflexivity|]. split; [exact H|].
  exact (set_get_roundtrip "a.b.c" (JNum 42) "v1" "v1" (JStr "none")
           fresh_world w' eq_refl H).
Defined.

(** ** Copying the auto-reload flag *)

Lemma found_or_step default m key keys :
  found_or default (JDict m) (key :: keys) =
    match dict_get m key with
    | Some x => found_or default x keys
    | None => default
    end.
Proof.
  unfold found_or. rewrite traverse_step. cbn [getitem].
  by destruct (dict_get m key).
Qed.

Lemma found_or_not_dict default d key keys :
  isinstance_dict d = false → found_or default d (key :: keys) = default.
Proof. intros Hd. apply found_or_unreachable. by apply not_a_mapping. Qed.

(** The loop of [set_setting] changes nothing off its key path. *)
Lemma assign_frame keys : ∀ d value d' q default,
  assign d keys value = Ok d' → diverge q keys = true →
  found_or default d' q = found_or default d q.
Proof.
  induction keys as [|key rest IH]; intros d value d' q default Ha Hq; [done|].
  destruct (assign_Ok_inv _ _ _ _ Ha) as (_ & Hd & _).
  destruct d as [| | | | |m]; try done.
  destruct q as [|b q']; [done|]. cbn [diverge] in Hq.
  assert (Hside : ∀ x, b ≠ key →
    found_or default (JDict (dict_set m key x)) (b :: q')
    = found_or default (JDict m) (b :: q')).
  { intros x Hb. rewrite !found_or_step. by rewrite dict_get_set_ne. }
  destruct rest as [|key' rest'].
  - cbn in Ha. inversion Ha; subst. apply Hside.
    destruct (String.eqb_spec b key) as [->|]; [by destruct q'|done].
  - rewrite assign_step_dict in Ha.
    destruct (assign _ _ _) as [child'|] eqn:Hc; [|done].
    inversion Ha; subst.
    destruct (String.eqb_spec b key) as [->|Hb]; [|by apply Hside].
    rewrite !found_or_step, dict_get_set_eq.
    rewrite (IH _ _ _ q' default Hc Hq).
    assert (Hq' : ∃ c q'', q' = c :: q'') by (destruct q'; [done|eauto]).
    destruct Hq' as (c & q'' & ->).
    unfold child_dict.
    destruct (dict_get m key) as [[| | | | |mx]|];
      by rewrite ?found_or_step, ?found_or_not_dict.
Qed.

Lemma get_setting_wf key_path default yim_version w r w1 :
  wf w → get_setting key_path default yim_version w = (r, w1) →
  wf w1 ∧ ∀ k', k' ≠ version_key_of yim_version → same_installation k' w w1.
Proof.
  intros Hwf. rewrite get_setting_unfold.
  destruct (_get_settings_with_cache yim_version w) as [[data|e] w'] eqn:Hfetch;
    intros [= <- <-];
    by destruct (_get_settings_with_cache_wf _ _ _ _ Hwf Hfetch) as (? & ? & _).
Qed.



(** ** The invariant of the heap

    [wf] holds when the manager is constructed and every method keeps it. *)

Lemma wf___init__ w : wf (__init__ w).
Proof. intros k l. by destruct k. Qed.

Lemma _write_json_safely_wf p data k w r w' :
  wf w →
  (∀ l, data = Some l →
     (l < length (heap w))%nat
     ∧ ∀ k', k' ≠ k → pv_get (_settings_cache w) k' ≠ Some l) →
  _write_json_safely p data k w = (r, w') → wf w'.
Proof.
  intros Hwf Hdata. rewrite _write_json_safely_cases.
  repeat case_bool_decide; intros [= <- <-]; try done.
  intros k0 l. cbn [written _settings_cache heap].
  destruct (decide (k0 = k)) as [->|Hk0].
  - rewrite pv_get_set_eq. intros ->.
    destruct (Hdata l eq_refl) as [Hlt Hne]. split; [done|].
    intros k' Hk'. rewrite pv_get_set_ne by done. by apply Hne.
  - rewrite pv_get_set_ne by done. intros Hl.
    destruct (Hwf _ _ Hl) as [Hlt Hne]. split; [done|].
    intros k' Hk'. rewrite (version_key_other k k0 k') by done.
    rewrite pv_get_set_eq. intros ->.
    destruct (Hdata l eq_refl) as [_ Hne']. by apply (Hne' k0).
Qed.

Lemma ensure_settings_file_exists_wf yim_version w r w' :
  wf w → ensure_settings_file_exists yim_version w = (r, w') → wf w'.
Proof.
  intros Hwf. unfold ensure_settings_file_exists, bind, os_path_exists.
  destruct (files w !! _get_file_path yim_version) as [f|]; cbn -[_write_json_safely].
  { by intros [= <- <-]. }
  destruct (_write_json_safely _ _ _ _) as [[ok|e] w1] eqn:Hw.
  - assert (wf w1).
    { eapply _write_json_safely_wf; [| |exact Hw].
      - intros k l Hl. destruct (Hwf k l Hl) as [Hlt Hne].
        split; [|done]. cbn. rewrite length_app. cbn. lia.
      - intros l [= <-]. split.
        + cbn. rewrite length_app. cbn. lia.
        + intros k' _ Hbad. destruct (Hwf _ _ Hbad) as [Hlt _]. lia. }
    destruct ok; by intros [= <- <-].
  - intros [= <- <-].
    rewrite _write_json_safely_cases in Hw. by repeat case_bool_decide.
Qed.

Lemma sync_auto_reload_settings_wf source_version target_version w r w' :
  wf w →
  sync_auto_reload_settings source_version target_version w = (r, w') →
  wf w'.
Proof.
  intros Hwf. unfold sync_auto_reload_settings.
  destruct (String.eqb source_version target_version).
  { by intros [= <- <-]. }
  unfold bind.
  destruct (get_auto_reload_changed_scripts source_version w)
    as [[value|e] w0] eqn:Hget.
  - destruct (get_setting_wf _ _ _ _ _ _ Hwf Hget) as [Hwf0 _].
    intros Hset. by destruct (set_setting_wf _ _ _ _ _ _ Hwf0 Hset).
  - destruct (get_setting_wf _ _ _ _ _ _ Hwf Hget) as [Hwf0 _].
    by intros [= <- <-].
Qed.

(** ** The script folders *)

Module LuaFacts.
Import Lua.

Section strings.
Implicit Types (s suffix : string).

Lemma append_nil_l s : (EmptyString ++ s)%string = s.
Proof. reflexivity. Qed.

Lemma append_cons c s1 s2 :
  (String c s1 ++ s2)%string = String c (s1 ++ s2)%string.
Proof. reflexivity. Qed.

Lemma length_append s1 s2 :
  String.length (s1 ++ s2)%string = (String.length s1 + String.length s2)%nat.
Proof.
  induction s1 as [|c s1 IH]; [done|].
  rewrite append_cons. cbn. by rewrite IH.
Qed.

Lemma endswith_refl s : endswith s s = true.
Proof. destruct s; cbn; by rewrite ?String.eqb_refl, ?Ascii.eqb_refl. Qed.

Lemma endswith_append s suffix : endswith (s ++ suffix)%string suffix = true.
Proof.
  induction s as [|c s IH].
  - rewrite append_nil_l. apply endswith_refl.
  - rewrite append_cons. cbn [endswith]. rewrite IH. apply orb_true_r.
Qed.

Lemma removesuffix_refl s : removesuffix s s = EmptyString.
Proof. destruct s; cbn; by rewrite ?String.eqb_refl, ?Ascii.eqb_refl. Qed.

Lemma removesuffix_append s suffix :
  removesuffix (s ++ suffix)%string suffix = s.
Proof.
  induction s as [|c s IH].
  - rewrite append_nil_l. apply removesuffix_refl.
  - rewrite append_cons. cbn [removesuffix].
    destruct (String.eqb_spec (String c (s ++ suffix)) suffix) as [Heq|_].
    + apply (f_equal String.length) in Heq. cbn in Heq.
      rewrite length_append in Heq. lia.
    + by rewrite IH.
Qed.

Lemma endswith_removesuffix s suffix :
  endswith s suffix = true → (removesuffix s suffix ++ suffix)%string = s.
Proof.
  induction s as [|c s IH]; intros H.
  - destruct suffix; [done|]. by cbn in H.
  - cbn [endswith removesuffix] in *.
    destruct (String.eqb_spec (String c s) suffix) as [<-|_]; [done|].
    cbn in H. rewrite append_cons. by rewrite IH.
Qed.

Lemma dot_lua_not_disabled filename :
  (filename ++ ".lua")%string ≠ "disabled"%string.
Proof.
  intros H. pose proof (endswith_append filename ".lua") as He.
  rewrite H in He. vm_compute in He. discriminate.
Qed.

End strings.

Section tree.
Implicit Types (n : node) (es : list (string * node)) (p q : fspath).

Lemma entry_get_set_eq es c x : entry_get (entry_set es c x) c = Some x.
Proof.
  induction es as [|[k y] es IH]; cbn.
  - by rewrite String.eqb_refl.
  - destruct (String.eqb k c) eqn:E; cbn; by rewrite E.
Qed.

Lemma entry_get_set_ne es c c' x :
  c ≠ c' → entry_get (entry_set es c x) c' = entry_get es c'.
Proof.
  intros Hne. induction es as [|[k y] es IH]; cbn.
  - apply String.eqb_neq in Hne. by rewrite Hne.
  - destruct (String.eqb_spec k c) as [->|]; cbn.
    + apply String.eqb_neq in Hne. by rewrite Hne.
    + by rewrite IH.
Qed.

Lemma entry_get_del_eq es c : entry_get (entry_del es c) c = None.
Proof.
  induction es as [|[k y] es IH]; cbn; [done|].
  destruct (String.eqb k c) eqn:E; cbn; by rewrite ?E.
Qed.

Lemma entry_get_del_ne es c c' :
  c ≠ c' → entry_get (entry_del es c) c' = entry_get es c'.
Proof.
  intros Hne. induction es as [|[k y] es IH]; cbn; [done|].
  destruct (String.eqb_spec k c) as [->|]; cbn.
  - apply String.eqb_neq in Hne. by rewrite Hne.
  - by rewrite IH.
Qed.

Lemma entry_set_id es c x : entry_get es c = Some x → entry_set es c x = es.
Proof.
  induction es as [|[k y] es IH]; cbn; [done|].
  destruct (String.eqb k c); [by intros [= ->]|].
  intros H. by rewrite IH.
Qed.

Lemma put_path_step es c c' p x :
  put_path (NDir es) (c :: c' :: p) x =
    match entry_get es c with
    | Some n' => NDir (entry_set es c (put_path n' (c' :: p) x))
    | None => NDir es
    end.
Proof. reflexivity. Qed.

Lemma put_path_cons es c q x :
  q ≠ [] →
  put_path (NDir es) (c :: q) x =
    match entry_get es c with
    | Some n' => NDir (entry_set es c (put_path n' q x))
    | None => NDir es
    end.
Proof. by destruct q. Qed.

Lemma lookup_path_cons es c p :
  lookup_path (NDir es) (c :: p) =
    match entry_get es c with
    | Some n' => lookup_path n' p
    | None => None
    end.
Proof. reflexivity. Qed.

Lemma put_path_is_dir es q x : ∃ es', put_path (NDir es) q x = NDir es'.
Proof.
  destruct q as [|c [|c' q]]; [by eexists|by eexists|].
  rewrite put_path_step. destruct (entry_get es c); by eexists.
Qed.

Lemma diverge_sym p : ∀ q, diverge p q = diverge q p.
Proof.
  induction p as [|a p IH]; intros [|b q]; cbn; try done.
  rewrite (String.eqb_sym b a). by rewrite IH.
Qed.

Lemma diverge_app_r p : ∀ q r, diverge p q = true → diverge p (q ++ r) = true.
Proof.
  induction p as [|a p IH]; intros [|b q] r; cbn; try done.
  destruct (String.eqb a b); [apply IH|done].
Qed.

Lemma diverge_last p c c' : c ≠ c' → diverge (p ++ [c]) (p ++ [c']) = true.
Proof.
  intros Hne. induction p as [|a p IH]; cbn.
  - apply String.eqb_neq in Hne. by rewrite Hne.
  - by rewrite String.eqb_refl.
Qed.

Lemma lookup_path_app p : ∀ n q,
  lookup_path n (p ++ q) =
    match lookup_path n p with
    | Some n' => lookup_path n' q
    | None => None
    end.
Proof.
  induction p as [|c p IH]; intros n q; [done|]. cbn.
  destruct n as [|es]; [done|]. destruct (entry_get es c); [apply IH|done].
Qed.

(** The parent of something that is there is a directory. *)
Lemma lookup_path_parent n p c x :
  lookup_path n (p ++ [c]) = Some x →
  ∃ es, lookup_path n p = Some (NDir es).
Proof.
  rewrite lookup_path_app.
  destruct (lookup_path n p) as [[|es]|]; [done| |done]. eauto.
Qed.

Lemma lookup_put_diverge q : ∀ p n x,
  diverge p q = true → lookup_path (put_path n q x) p = lookup_path n p.
Proof.
  induction q as [|c q IH]; intros p n x Hd.
  { by destruct p. }
  destruct p as [|b p]; [done|]. cbn [diverge] in Hd.
  destruct n as [|es]; [done|].
  destruct q as [|c' q].
  - destruct (String.eqb_spec b c) as [->|Hne]; [by destruct p|].
    cbn. destruct x; by rewrite ?entry_get_set_ne, ?entry_get_del_ne.
  - rewrite put_path_step.
    destruct (entry_get es c) as [n'|] eqn:Hc; [|done].
    cbn [lookup_path].
    destruct (String.eqb_spec b c) as [->|Hne].
    + rewrite entry_get_set_eq, Hc. by apply IH.
    + by rewrite entry_get_set_ne.
Qed.

Lemma lookup_put_eq p : ∀ n c x es,
  lookup_path n p = Some (NDir es) →
  lookup_path (put_path n (p ++ [c]) x) (p ++ [c]) = x.
Proof.
  induction p as [|a p IH]; intros n c x es Hp.
  - cbn in Hp. inversion Hp; subst n. cbn.
    destruct x; by rewrite ?entry_get_set_eq, ?entry_get_del_eq.
  - cbn in Hp. destruct n as [|es0]; [done|].
    destruct (entry_get es0 a) as [n'|] eqn:Ha; [|done].
    change ((a :: p) ++ [c]) with (a :: (p ++ [c])).
    rewrite put_path_cons by (by destruct p).
    rewrite Ha, lookup_path_cons, entry_get_set_eq. by eapply IH.
Qed.

(** An entry put or removed below a directory leaves it a directory. *)
Lemma lookup_put_above p : ∀ n q x es,
  q ≠ [] →
  lookup_path n p = Some (NDir es) →
  is_dir (lookup_path (put_path n (p ++ q) x) p) = true.
Proof.
  induction p as [|a p IH]; intros n q x es Hq Hp.
  - cbn in Hp. inversion Hp; subst n. cbn [app lookup_path].
    by destruct (put_path_is_dir es q x) as [es' ->].
  - cbn in Hp. destruct n as [|es0]; [done|].
    destruct (entry_get es0 a) as [n'|] eqn:Ha; [|done].
    change ((a :: p) ++ q) with (a :: (p ++ q)).
    rewrite put_path_cons by (by destruct p, q).
    rewrite Ha, lookup_path_cons, entry_get_set_eq. by eapply IH.
Qed.

Lemma mkdirs_id p : ∀ n es,
  lookup_path n p = Some (NDir es) → mkdirs n p = Ok n.
Proof.
  induction p as [|c p IH]; intros n es Hp.
  - cbn in Hp. by inversion Hp.
  - cbn in Hp. destruct n as [|es0]; [done|].
    destruct (entry_get es0 c) as [n'|] eqn:Hc; [|done].
    cbn. rewrite Hc. cbn. rewrite (IH _ _ Hp). by rewrite entry_set_id.
Qed.

Lemma mkdirs_is_dir p : ∀ n n',
  mkdirs n p = Ok n' → is_dir (lookup_path n' p) = true.
Proof.
  induction p as [|c p IH]; intros n n' Hm; destruct n as [|es]; try done.
  - cbn in Hm. by inversion Hm.
  - cbn in Hm. destruct (mkdirs _ p) as [r|] eqn:Hr; [|done].
    inversion Hm; subst. cbn. rewrite entry_get_set_eq. by eapply IH.
Qed.

Lemma mkdirs_diverge p : ∀ n n' q,
  mkdirs n p = Ok n' → diverge q p = true →
  lookup_path n' q = lookup_path n q.
Proof.
  induction p as [|c p IH]; intros n n' q Hm Hd.
  { by destruct q. }
  destruct n as [|es]; [done|]. cbn in Hm.
  destruct (mkdirs _ p) as [r|] eqn:Hr; [|done].
  inversion Hm; subst. destruct q as [|b q]; [done|].
  cbn [diverge] in Hd. cbn [lookup_path].
  destruct (String.eqb_spec b c) as [->|Hne].
  - rewrite entry_get_set_eq. rewrite (IH _ _ _ Hr Hd).
    destruct (entry_get es c); [done|]. by destruct q.
  - by rewrite entry_get_set_ne.
Qed.

End tree.

Section operations.
Implicit Types (w : world) (p : fspath) (name : string).

Lemma diverge_at p c c' r r' :
  c ≠ c' → diverge (p ++ c :: r) (p ++ c' :: r') = true.
Proof.
  intros Hne. induction p as [|a p IH]; cbn.
  - apply String.eqb_neq in Hne. by rewrite Hne.
  - by rewrite String.eqb_refl.
Qed.

Lemma mkdirs_below p : ∀ n n' q,
  mkdirs n p = Ok n' → q ≠ [] →
  lookup_path n' (p ++ q) = lookup_path n (p ++ q).
Proof.
  induction p as [|c p IH]; intros n n' q Hm Hq.
  - destruct n; [done|]. cbn in Hm. by inversion Hm.
  - destruct n as [|es]; [done|]. cbn in Hm.
    destruct (mkdirs _ p) as [r|] eqn:Hr; [|done].
    inversion Hm; subst.
    change ((c :: p) ++ q) with (c :: (p ++ q)).
    rewrite !lookup_path_cons, entry_get_set_eq, (IH _ _ _ Hr Hq).
    destruct (entry_get es c); [done|]. cbn.
    by destruct p, q.
Qed.

Lemma os_path_basename_join dir name :
  os_path_basename (os_path_join dir name) = name.
Proof. unfold os_path_basename, os_path_join. apply last_last. Qed.

Lemma os_path_dirname_join dir name :
  os_path_dirname (os_path_join dir name) = dir.
Proof. unfold os_path_dirname, os_path_join. apply removelast_last. Qed.

Lemma dirs_of_disabled version :
  (dirs_of version).2 = os_path_join (dirs_of version).1 "disabled".
Proof. unfold dirs_of. by destruct (String.eqb version "v2"). Qed.

(** A move that went through: the source path is free, the destination path
    is taken, by the very node that was moved unless a directory was in its
    place. *)
Lemma shutil_move_Ok src_dir dest_dir name w w' :
  let src := os_path_join src_dir name in
  let dest := os_path_join dest_dir name in
  diverge src dest = true →
  is_dir (lookup_path (put_path (root w) src None) dest_dir) = true →
  shutil_move src dest w = (Ok tt, w') →
  ∃ n, lookup_path (root w) src = Some n
       ∧ lookup_path (root w') src = None
       ∧ is_Some (lookup_path (root w') dest)
       ∧ (is_dir (lookup_path (root w) dest) = false →
          lookup_path (root w') dest = Some n).
Proof.
  intros src dest Hdiv Hparent. unfold shutil_move.
  destruct (lookup_path (root w) src) as [n|] eqn:Hsrc; [|done].
  destruct (lookup_path_parent _ _ _ _ Hsrc) as [es Hps].
  assert (Hgone : lookup_path (put_path (root w) src None) src = None)
    by (by eapply lookup_put_eq).
  destruct (lookup_path (put_path (root w) src None) dest_dir)
    as [[|des]|] eqn:Hpd; try done.
  assert (Hbase : os_path_basename src = name)
    by apply os_path_basename_join.
  rewrite Hbase.
  destruct (is_dir (lookup_path (root w) dest)) eqn:Hdir; cbn [andb].
  - destruct (bool_decide (is_Some _)); [done|]. cbn [andb].
    destruct (_ || _); [done|].
    destruct (is_dir (Some n) && _); [done|].
    intros [= <-]. cbn [root]. exists n. split_and!; try done.
    + rewrite lookup_put_diverge; [done|]. by apply diverge_app_r.
    + assert (Hd' : is_dir (lookup_path (put_path (root w) src None) dest)
                    = true).
      { rewrite lookup_put_diverge; [done|]. by rewrite diverge_sym. }
      destruct (lookup_path (put_path (root w) src None) dest)
        as [[|es']|] eqn:Hd''; try done.
      pose proof (lookup_put_above dest
                    (put_path (root w) src None) [name] (Some n) es'
                    ltac:(done) Hd'') as Hab.
      unfold os_path_join at 1.
      destruct (lookup_path (put_path _ (dest ++ [name]) _) dest);
        [by eexists | done].
  - destruct (_ || _); [done|].
    destruct (is_dir (Some n) && _); [done|].
    intros [= <-]. cbn [root]. exists n.
    assert (Hnew : lookup_path
                     (put_path (put_path (root w) src None) dest (Some n)) dest
                   = Some n) by (by eapply lookup_put_eq).
    split_and!; try done. by rewrite lookup_put_diverge.
Qed.

Lemma world_eta w : World (root w) (locked w) (log w) = w.
Proof. by destruct w. Qed.

(** [enable_script] and [disable_script] with nothing at the source path. *)
Lemma enable_script_absent filename version w :
  let name := (filename ++ ".lua")%string in
  lookup_path (root w) (os_path_join (dirs_of version).2 name) = None →
  enable_script filename version w =
    (Ok false,
     World (root w) (locked w) (error_cannot_enable name version :: log w)).
Proof.
  intros name. unfold enable_script.
  destruct (dirs_of version) as [S D]. cbn [snd].
  intros H. unfold bind, os_path_exists. fold name. by rewrite H.
Qed.

Lemma disable_script_absent filename version w :
  let name := (filename ++ ".lua")%string in
  lookup_path (root w) (os_path_join (dirs_of version).1 name) = None →
  disable_script filename version w =
    (Ok false,
     World (root w) (locked w) (error_cannot_disable name version :: log w)).
Proof.
  intros name. unfold disable_script.
  destruct (dirs_of version) as [S D]. cbn [fst].
  intros H. unfold bind, os_path_exists. fold name. by rewrite H.
Qed.

(** [enable_script] and [disable_script] that returned [True]. *)
Lemma enable_script_true filename version w w' :
  let name := (filename ++ ".lua")%string in
  let src := os_path_join (dirs_of version).2 name in
  let dest := os_path_join (dirs_of version).1 name in
  enable_script filename version w = (Ok true, w') →
  ∃ n, lookup_path (root w) src = Some n
       ∧ lookup_path (root w') src = None
       ∧ is_Some (lookup_path (root w') dest)
       ∧ (is_dir (lookup_path (root w) dest) = false →
          lookup_path (root w') dest = Some n).
Proof.
  intros name src dest. unfold enable_script.
  pose proof (dirs_of_disabled version) as HD. subst src dest.
  destruct (dirs_of version) as [S D]. cbn [fst snd] in *. subst D.
  fold name. unfold bind at 1, os_path_exists at 1.
  destruct (lookup_path (root w) (os_path_join (os_path_join S "disabled") name))
    as [n|] eqn:Hsrc; [|done].
  cbn [bool_decide negb]. rewrite bool_decide_eq_true_2 by eauto. cbn [negb].
  rewrite os_path_dirname_join.
  destruct (lookup_path_parent _ _ _ _ Hsrc) as [des HD].
  destruct (lookup_path_parent _ _ _ _ HD) as [es HS].
  unfold try_except, bind, os_makedirs.
  rewrite (mkdirs_id _ _ _ HS), world_eta.
  destruct (shutil_move _ _ w) as [[[]|e] w1] eqn:Hmove.
  2:{ by destruct e. }
  cbn. intros [= <-]. cbn [root].
  rewrite <- Hsrc.
  eapply (shutil_move_Ok (os_path_join S "disabled") S name w w1); [| |done].
  - unfold os_path_join. rewrite <- !app_assoc. cbn [app].
    apply diverge_at. apply not_eq_sym, dot_lua_not_disabled.
  - unfold os_path_join. rewrite <- !app_assoc. cbn [app].
    by eapply lookup_put_above.
Qed.

Lemma disable_script_true filename version w w' :
  let name := (filename ++ ".lua")%string in
  let src := os_path_join (dirs_of version).1 name in
  let dest := os_path_join (dirs_of version).2 name in
  disable_script filename version w = (Ok true, w') →
  ∃ n, lookup_path (root w) src = Some n
       ∧ lookup_path (root w') src = None
       ∧ is_Some (lookup_path (root w') dest)
       ∧ (is_dir (lookup_path (root w) dest) = false →
          lookup_path (root w') dest = Some n).
Proof.
  intros name src dest. unfold disable_script.
  pose proof (dirs_of_disabled version) as HD. subst src dest.
  destruct (dirs_of version) as [S D]. cbn [fst snd] in *. subst D.
  fold name. unfold bind at 1, os_path_exists at 1.
  destruct (lookup_path (root w) (os_path_join S name)) as [n|] eqn:Hsrc;
    [|done].
  rewrite bool_decide_eq_true_2 by eauto. cbn [negb].
  rewrite os_path_dirname_join.
  unfold try_except, bind, os_makedirs.
  destruct (mkdirs (root w) (os_path_join S "disabled")) as [r1|e] eqn:Hmk.
  2:{ by destruct e. }
  assert (Hdiv : diverge (os_path_join S name) (os_path_join S "disabled")
                 = true)
    by (apply diverge_at, dot_lua_not_disabled).
  assert (Hsrc1 : lookup_path r1 (os_path_join S name) = Some n)
    by (by rewrite (mkdirs_diverge _ _ _ _ Hmk Hdiv)).
  destruct (shutil_move _ _ _) as [[[]|e] w1] eqn:Hmove.
  2:{ by destruct e. }
  cbn. intros [= <-]. cbn [root].
  destruct (shutil_move_Ok S (os_path_join S "disabled") name
              (World r1 (locked w) (log w)) w1)
    as (n' & Hn' & Hgone & Hthere & Hsame); [| |exact Hmove|].
  - unfold os_path_join. rewrite <- !app_assoc. cbn [app].
    apply diverge_at, dot_lua_not_disabled.
  - cbn [root]. rewrite lookup_put_diverge.
    + by apply (mkdirs_is_dir _ _ _ Hmk).
    + rewrite diverge_sym. unfold os_path_join.
      apply diverge_at, dot_lua_not_disabled.
  - cbn [root] in *. rewrite Hsrc1 in Hn'. inversion Hn'; subst n'.
    exists n. split_and!; try done.
    intros Hdir. apply Hsame.
    unfold os_path_join at 1. rewrite (mkdirs_below _ _ _ _ Hmk) by done.
    exact Hdir.
Qed.

End operations.

Section listing.
Implicit Types (w : world) (r : node) (dir : fspath) (f b : string).

Lemma lua_files_in_run dir names w :
  lua_files_in dir names w = (Ok (filter (is_lua_file (root w) dir) names), w).
Proof.
  induction names as [|f names IH]; [done|].
  cbn [lua_files_in]. unfold bind at 1.
  assert (Hkeep : (if endswith f ".lua"
                   then os_path_isfile (os_path_join dir f)
                   else ret false) w
                  = (Ok (bool_decide (is_lua_file (root w) dir f)), w)).
  { unfold os_path_isfile, ret.
    destruct (endswith f ".lua") eqn:He.
    - destruct (is_file (lookup_path (root w) (os_path_join dir f))) eqn:Hf.
      + by rewrite bool_decide_eq_true_2 by done.
      + rewrite bool_decide_eq_false_2; [done|]. intros [_ H]. congruence.
    - rewrite bool_decide_eq_false_2; [done|]. intros [H _]. congruence. }
  rewrite Hkeep. unfold bind. rewrite IH. unfold ret.
  rewrite filter_cons. by case_bool_decide; case_decide.
Qed.

Lemma _get_lua_files_run dir w es :
  lookup_path (root w) dir = Some (NDir es) →
  _get_lua_files dir w
  = (Ok (filter (is_lua_file (root w) dir) (es.*1)), w).
Proof.
  intros Hd. unfold _get_lua_files, bind, os_path_isdir, os_listdir.
  rewrite !Hd. cbn. rewrite ?Hd. apply lua_files_in_run.
Qed.

Lemma entry_get_elem_of es c x : entry_get es c = Some x → c ∈ es.*1.
Proof.
  induction es as [|[k y] es IH]; cbn; [done|].
  destruct (String.eqb_spec k c) as [->|_].
  - intros _. apply elem_of_cons. by left.
  - intros H. apply elem_of_cons. right. by apply IH.
Qed.

(** The names shown are those of the regular files [b.lua] of the
    directory. *)
Lemma elem_of_display r dir es b :
  lookup_path r dir = Some (NDir es) →
  b ∈ display (filter (is_lua_file r dir) (es.*1)) ↔
  is_file (lookup_path r (os_path_join dir (b ++ ".lua")%string)) = true.
Proof.
  intros Hd. unfold display, sorted. rewrite list_elem_of_fmap. split.
  - intros (f & -> & Hf). rewrite merge_sort_Permutation in Hf.
    apply list_elem_of_filter in Hf as [[He Hfile] _].
    by rewrite (endswith_removesuffix _ _ He).
  - intros Hfile. exists (b ++ ".lua")%string.
    split; [by rewrite removesuffix_append|].
    rewrite merge_sort_Permutation. apply list_elem_of_filter. split.
    + split; [apply endswith_append|done].
    + unfold os_path_join in Hfile. rewrite lookup_path_app, Hd in Hfile.
      cbn in Hfile.
      destruct (entry_get es _) as [x|] eqn:Hx; [|done].
      by eapply entry_get_elem_of.
Qed.

(** They are listed in the order of the file names. *)
Lemma display_sorted_by_file_name r dir names :
  Sorted String.le
    ((fun b => (b ++ ".lua")%string)
       <$> display (filter (is_lua_file r dir) names)).
Proof.
  unfold display, sorted. rewrite <- list_fmap_compose.
  rewrite (list_fmap_ext _ id).
  - rewrite list_fmap_id. apply Sorted_merge_sort. apply _.
  - intros i f Hf. cbn.
    apply list_elem_of_lookup_2 in Hf.
    rewrite merge_sort_Permutation in Hf.
    apply list_elem_of_filter in Hf as [[He _] _].
    by apply endswith_removesuffix.
Qed.

Lemma get_scripts_run version w r1 r2 es ds :
  let S := (dirs_of version).1 in
  let D := (dirs_of version).2 in
  mkdirs (root w) S = Ok r1 → mkdirs r1 D = Ok r2 →
  lookup_path r2 S = Some (NDir es) → lookup_path r2 D = Some (NDir ds) →
  ∃ l,
    get_scripts version w =
      (Ok (Scripts (display (filter (is_lua_file r2 S) (es.*1)))
                   (display (filter (is_lua_file r2 D) (ds.*1)))),
       World r2 (locked w) l).
Proof.
  intros S D H1 H2 HS HD. unfold get_scripts. subst S D.
  destruct (dirs_of version) as [S D]. cbn [fst snd] in *.
  unfold bind, logger, os_makedirs. cbn [root locked log].
  rewrite H1. cbn [root locked log]. rewrite H2.
  rewrite (_get_lua_files_run S _ es) by done.
  rewrite (_get_lua_files_run D _ ds) by done.
  cbn. by eexists.
Qed.

End listing.

(** C9, as amended.  Enabling or disabling a script with nothing at its
    source path returns [False], raises nothing and leaves the folders as
    they are.  When enabling or disabling returns [True], the source path is
    free and the destination path is taken, by the very file that was
    moved unless a directory had that name.  When the two folders can be
    created, the listing returns, for each folder, the names [b] of its
    regular files [b.lua], in the order of the file names [b.lua]. *)
Theorem script_toggle_and_listing filename version w :
  let name := (filename ++ ".lua")%string in
  let S := (dirs_of version).1 in
  let D := (dirs_of version).2 in
  (lookup_path (root w) (os_path_join D name) = None →
   ∃ w', enable_script filename version w = (Ok false, w')
         ∧ root w' = root w)
  ∧ (lookup_path (root w) (os_path_join S name) = None →
     ∃ w', disable_script filename version w = (Ok false, w')
           ∧ root w' = root w)
  ∧ (∀ w', enable_script filename version w = (Ok true, w') →
       lookup_path (root w') (os_path_join D name) = None
       ∧ is_Some (lookup_path (root w') (os_path_join S name))
       ∧ (is_dir (lookup_path (root w) (os_path_join S name)) = false →
          lookup_path (root w') (os_path_join S name)
          = lookup_path (root w) (os_path_join D name)))
  ∧ (∀ w', disable_script filename version w = (Ok true, w') →
       lookup_path (root w') (os_path_join S name) = None
       ∧ is_Some (lookup_path (root w') (os_path_join D name))
       ∧ (is_dir (lookup_path (root w) (os_path_join D name)) = false →
          lookup_path (root w') (os_path_join D name)
          = lookup_path (root w) (os_path_join S name)))
  ∧ (∀ r1 r2,
       mkdirs (root w) S = Ok r1 → mkdirs r1 D = Ok r2 →
       ∃ e d w',
         get_scripts version w = (Ok (Scripts e d), w')
         ∧ root w' = r2
         ∧ (∀ b, b ∈ e ↔
              is_file (lookup_path r2 (os_path_join S (b ++ ".lua")%string))
              = true)
         ∧ (∀ b, b ∈ d ↔
              is_file (lookup_path r2 (os_path_join D (b ++ ".lua")%string))
              = true)
         ∧ Sorted String.le ((fun b => (b ++ ".lua")%string) <$> e)
         ∧ Sorted String.le ((fun b => (b ++ ".lua")%string) <$> d)).
Proof.
  intros name S D. split_and!.
  - intros H. eexists. split; [by apply enable_script_absent|done].
  - intros H. eexists. split; [by apply disable_script_absent|done].
  - intros w' H. destruct (enable_script_true _ _ _ _ H)
      as (n & Hn & Hgone & Hthere & Hsame).
    split_and!; try done. intros Hd. fold name D in Hn. rewrite Hn.
    by apply Hsame.
  - intros w' H. destruct (disable_script_true _ _ _ _ H)
      as (n & Hn & Hgone & Hthere & Hsame).
    split_and!; try done. intros Hd. fold name S in Hn. rewrite Hn.
    by apply Hsame.
  - intros r1 r2 H1 H2.
    pose proof (mkdirs_is_dir _ _ _ H2) as HD.
    destruct (lookup_path r2 D) as [[|ds]|] eqn:HD'; try done.
    assert (HS : ∃ es, lookup_path r2 S = Some (NDir es)).
    { unfold D in HD'. rewrite dirs_of_disabled in HD'.
      by eapply lookup_path_parent. }
    destruct HS as [es HS].
    destruct (get_scripts_run version w r1 r2 es ds H1 H2 HS HD') as [l Hrun].
    eexists _, _, _. split; [exact Hrun|]. split_and!; try done.
    + intros b. by apply elem_of_display.
    + intros b. by apply elem_of_display.
    + apply display_sorted_by_file_name.
    + apply display_sorted_by_file_name.
Qed.

Lemma script_toggle_and_listing_witness :
  let w := three_scripts_world in
  let w1 := (disable_script "a" "v1" w).2 in
  lookup_path (root w) (os_path_join DISABLED_SCRIPTS_PATH "zz.lua") = None ∧
  (∃ w', enable_script "zz" "v1" w = (Ok false, w') ∧ root w' = root w) ∧
  disable_script "a" "v1" w = (Ok true, w1) ∧
  lookup_path (root w1) (os_path_join SCRIPTS_PATH "a.lua") = None ∧
  is_dir (lookup_path (root w) (os_path_join DISABLED_SCRIPTS_PATH "a.lua"))
    = false ∧
  lookup_path (root w1) (os_path_join DISABLED_SCRIPTS_PATH "a.lua")
    = Some (NFile "-- a") ∧
  mkdirs (root w) SCRIPTS_PATH = Ok (root w) ∧
  mkdirs (root w) DISABLED_SCRIPTS_PATH = Ok (root w) ∧
  ∃ e d w',
    get_scripts "v1" w = (Ok (Scripts e d), w')
    ∧ Sorted String.le ((fun b => (b ++ ".lua")%string) <$> e).
Proof.
  intros w w1.
  assert (H1 : lookup_path (root w) (os_path_join (dirs_of "v1").2 "zz.lua")
               = None) by reflexivity.
  assert (H2 : disable_script "a" "v1" w = (Ok true, w1))
    by (vm_compute; reflexivity).
  assert (H3 : is_dir (lookup_path (root w)
                 (os_path_join (dirs_of "v1").2 "a.lua")) = false)
    by reflexivity.
  assert (H4 : mkdirs (root w) (dirs_of "v1").1 = Ok (root w)) by reflexivity.
  assert (H5 : mkdirs (root w) (dirs_of "v1").2 = Ok (root w)) by reflexivity.
  destruct (script_toggle_and_listing "zz" "v1" w) as (Ha & _).
  destruct (script_toggle_and_listing "a" "v1" w)
    as (_ & _ & _ & Hb & Hc).
  destruct (Hb w1 H2) as (Hgone & _ & Hsame).
  destruct (Hc _ _ H4 H5) as (e & d & w' & Hrun & _ & _ & _ & Hsorted & _).
  refine (conj H1 (conj (Ha H1) (conj H2 (conj Hgone (conj H3
            (conj (Hsame H3) (conj H4 (conj H5 _)))))))).
  exists e, d, w'. exact (conj Hrun Hsorted).
Defined.

(** C9 as the specification states it fails on [three_scripts_world]: the
    enabled scripts are listed as [a-b], [a], because [a-b.lua] sorts before
    [a.lua], and that list of base names is not sorted. *)
Lemma listing_not_sorted_by_base_name :
  (get_scripts "v1" three_scripts_world).1
    = Ok (Scripts ["a-b"; "a"]%string ["b"%string])
  ∧ ¬ Sorted String.le ["a-b"; "a"]%string.
Proof.
  split; [vm_compute; reflexivity|].
  intros H. inversion H as [|? ? _ Hhd]; subst.
  inversion Hhd as [|? ? Hle]; subst.
  vm_compute in Hle. done.
Qed.

End LuaFacts.

(** * Further properties of the settings store *)

Lemma assign_not_dict d keys value :
  isinstance_dict d = false → keys ≠ [] →
  assign d keys value = Raise TypeError.
Proof.
  intros Hd Hk. destruct keys as [|key [|key' rest]]; [done| |];
    by destruct d.
Qed.

(** [set_setting], with the outcome of the write spelled out. *)
Lemma set_setting_cases key_path value yim_version w :
  let k := version_key_of yim_version in
  let p := _get_file_path yim_version in
  set_setting key_path value yim_version w =
    match _get_settings_with_cache yim_version w with
    | (Ok data, w1) =>
        match assign (deref (heap w1) data) (split_dot key_path) value with
        | Ok d' =>
            if bool_decide (dot_tmp p ∈ unwritable w)
            then (Ok false, write_refused p (mutated data d' w1))
            else if bool_decide (p ∈ unwritable w)
            then (Ok false, move_refused p data (mutated data d' w1))
            else (Ok true, written p data k (mutated data d' w1))
        | Raise e =>
            (Ok false,
             with_log w1 (log_error_traversing yim_version e :: log w1))
        end
    | (Raise e, w1) => (Raise e, w1)
    end.
Proof.
  intros k p. rewrite set_setting_unfold.
  destruct (_get_settings_with_cache yim_version w) as [[data|e] w1] eqn:Hf;
    [|done].
  destruct (assign _ _ _) as [d'|e]; [|done].
  rewrite _write_json_safely_cases.
  destruct (_get_settings_with_cache_effect _ _ _ _ Hf) as (_ & _ & Hu & _).
  assert (unwritable (mutated data d' w1) = unwritable w) as ->
    by (by destruct data).
  done.
Qed.

(** The reference that is returned denotes the document [fetched]. *)
Lemma fetched_Ok yim_version w doc :
  fetched (version_key_of yim_version) w = Ok doc →
  ∃ data w1,
    _get_settings_with_cache yim_version w = (Ok data, w1)
    ∧ deref (heap w1) data = doc.
Proof.
  rewrite <- doc_of_get_settings_with_cache.
  destruct (_get_settings_with_cache yim_version w) as [[data|e] w1]; [|done].
  intros [= <-]. by eexists _, _.
Qed.



(** On a mapping and a file system that takes the write, [set_setting]
    returns [True]; the settings file then holds the document the loop has
    made, the cache holds the same document, and no temporary file is
    left. *)
Lemma set_setting_Ok_true key_path value yim_version w m :
  let k := version_key_of yim_version in
  let p := _get_file_path yim_version in
  fetched k w = Ok (JDict m) →
  dot_tmp p ∉ unwritable w → p ∉ unwritable w →
  ∃ w' doc',
    set_setting key_path value yim_version w = (Ok true, w')
    ∧ assign (JDict m) (split_dot key_path) value = Ok doc'
    ∧ files w' !! p = Some (File (Json doc') (now w))
    ∧ files w' !! dot_tmp p = None
    ∧ deref (heap w') (pv_get (_settings_cache w') k) = doc'
    ∧ pv_get (_last_modified w') k = now w.
Proof.
  intros k p Hdoc H1 H2.
  destruct (fetched_Ok _ _ _ Hdoc) as (data & w1 & Hf & Hd).
  destruct (assign_dict_Ok (split_dot key_path) m value) as [m' Ha];
    [apply split_dot_nonempty|].
  destruct (_get_settings_with_cache_effect _ _ _ _ Hf)
    as (_ & _ & _ & Hnow & _).
  assert (Hnow' : now (mutated data (JDict m') w1) = now w)
    by (by destruct data).
  assert (Hd' : deref (heap (mutated data (JDict m') w1)) data = JDict m')
    by (apply (deref_mutated data _ _ w1 eq_refl); by rewrite Hd).
  rewrite set_setting_cases, Hf, Hd, Ha. fold p k.
  rewrite !bool_decide_eq_false_2 by done.
  eexists _, (JDict m'). split; [reflexivity|].
  split_and!; try done.
  - cbn. rewrite lookup_insert_eq. by rewrite Hd', Hnow'.
  - cbn. rewrite lookup_insert_ne
      by (unfold p; rewrite _get_file_path_key;
          apply not_eq_sym, dot_tmp_SETTINGS_FILE_PATHS).
    by rewrite lookup_delete_eq.
  - cbn [written _settings_cache heap]. by rewrite pv_get_set_eq.
  - cbn [written _last_modified]. by rewrite pv_get_set_eq.
Qed.

(** X2.  Without a settings file, whatever the cache holds, [set_setting]
    on a file system that takes the write creates the file with nothing but
    the chain of mappings of the key path and the value. *)
Theorem set_setting_creates_file key_path value yim_version w :
  let p := _get_file_path yim_version in
  files w !! p = None →
  dot_tmp p ∉ unwritable w → p ∉ unwritable w →
  ∃ w',
    set_setting key_path value yim_version w = (Ok true, w')
    ∧ files w' !! p
      = Some (File (Json (nested (split_dot key_path) value)) (now w))
    ∧ files w' !! dot_tmp p = None.
Proof.
  intros p Hf H1 H2.
  assert (Hdoc : fetched (version_key_of yim_version) w = Ok (JDict []))
    by (unfold fetched; rewrite <- _get_file_path_key; fold p; by rewrite Hf).
  destruct (set_setting_Ok_true key_path value _ _ _ Hdoc H1 H2)
    as (w' & doc' & Hset & Ha & Hfile & Htmp & _).
  rewrite assign_empty in Ha by apply split_dot_nonempty.
  inversion Ha; subst doc'. eauto.
Qed.

Lemma set_setting_creates_file_witness :
  let p := _get_file_path "v1" in
  files fresh_world !! p = None ∧
  (dot_tmp p ∉ unwritable fresh_world) ∧
  (p ∉ unwritable fresh_world) ∧
  ∃ w',
    set_setting "a.b.c" (JNum 42) "v1" fresh_world = (Ok true, w')
    ∧ files w' !! p
      = Some (File (Json (JDict [("a", JDict [("b", JDict [("c", JNum 42)])])]))
                   100)
    ∧ files w' !! dot_tmp p = None.
Proof.
  intros p.
  assert (H1 : files fresh_world !! _get_file_path "v1" = None)
    by (vm_compute; reflexivity).
  assert (H2 : dot_tmp (_get_file_path "v1") ∉ unwritable fresh_world)
    by (by vm_compute).
  assert (H3 : _get_file_path "v1" ∉ unwritable fresh_world)
    by (by vm_compute).
  refine (conj H1 (conj H2 (conj H3 _))).
  exact (set_setting_creates_file "a.b.c" (JNum 42) "v1" fresh_world H1 H2 H3).
Defined.

(** X3.  A settings file with a JSON syntax error that [set_setting] has to
    read (nothing cached, or cached under another timestamp) is replaced:
    on a file system that takes the write, the file afterwards holds only the
    key path that was set, and a warning was logged for the read. *)
Theorem set_setting_replaces_malformed_file key_path value yim_version f w :
  let k := version_key_of yim_version in
  let p := _get_file_path yim_version in
  files w !! p = Some f →
  f_content f = BadSyntax →
  pv_get (_settings_cache w) k = None ∨
    pv_get (_last_modified w) k ≠ f_mtime f →
  dot_tmp p ∉ unwritable w → p ∉ unwritable w →
  ∃ w',
    set_setting key_path value yim_version w = (Ok true, w')
    ∧ files w' !! p
      = Some (File (Json (nested (split_dot key_path) value)) (now w))
    ∧ log w'
      = log_successfully_wrote p :: log_failed_to_read p
          (if bool_decide (p ∈ unreadable w) then OSError else JSONDecodeError)
          :: log w.
Proof.
  intros k p Hf Hbad Hmiss H1 H2.
  assert (Hdoc : fetched k w = Ok (JDict [])).
  { unfold fetched, k. rewrite <- _get_file_path_key. fold p k. rewrite Hf.
    assert (bool_decide (pv_get (_settings_cache w) k = None)
            || negb (pv_get (_last_modified w) k =? f_mtime f) = true) as ->.
    { destruct Hmiss as [Hc|Hm].
      - by rewrite bool_decide_eq_true_2.
      - apply Z.eqb_neq in Hm. rewrite Hm. by rewrite orb_true_r. }
    case_bool_decide; [done|]. by rewrite Hbad. }
  destruct (set_setting_Ok_true key_path value _ _ _ Hdoc H1 H2)
    as (w' & doc' & Hset & Ha & Hfile & _).
  rewrite assign_empty in Ha by apply split_dot_nonempty.
  inversion Ha; subst doc'.
  exists w'. split_and!; try done.
  rewrite set_setting_cases in Hset. fold p k in Hset.
  rewrite (_get_settings_with_cache_refresh _ f) in Hset by done.
  rewrite (_read_json_safely_exists _ f) in Hset by done. fold p k in Hset.
  rewrite !(bool_decide_eq_false_2 (_ ∈ unwritable w)) in Hset by done.
  case_bool_decide.
  - cbn in Hset. rewrite lookup_app_r, Nat.sub_diag in Hset by done.
    cbn [lookup list_lookup default] in Hset.
    rewrite assign_empty in Hset by apply split_dot_nonempty.
    by inversion Hset.
  - rewrite Hbad in Hset. cbn in Hset.
    rewrite lookup_app_r, Nat.sub_diag in Hset by done.
    cbn [lookup list_lookup default] in Hset.
    rewrite assign_empty in Hset by apply split_dot_nonempty.
    by inversion Hset.
Qed.

Lemma set_setting_replaces_malformed_file_witness :
  let p := _get_file_path "v1" in
  let w := malformed_world in
  files w !! p = Some (File BadSyntax 7) ∧
  pv_get (_settings_cache w) v1 = None ∧
  (dot_tmp p ∉ unwritable w) ∧ (p ∉ unwritable w) ∧
  ∃ w',
    set_setting "theme.light_mode" (JBool true) "v1" w = (Ok true, w')
    ∧ files w' !! p
      = Some (File (Json (JDict [("theme", JDict [("light_mode", JBool true)])]))
                   100).
Proof.
  intros p w.
  assert (H1 : files w !! _get_file_path "v1" = Some (File BadSyntax 7))
    by (vm_compute; reflexivity).
  assert (H2 : pv_get (_settings_cache w) (version_key_of "v1") = None)
    by reflexivity.
  assert (H3 : dot_tmp (_get_file_path "v1") ∉ unwritable w)
    by (by vm_compute).
  assert (H4 : _get_file_path "v1" ∉ unwritable w) by (by vm_compute).
  refine (conj H1 (conj H2 (conj H3 (conj H4 _)))).
  destruct (set_setting_replaces_malformed_file "theme.light_mode" (JBool true)
              "v1" _ w H1 eq_refl (or_introl H2) H3 H4)
    as (w' & Hset & Hfile & _).
  exists w'. exact (conj Hset Hfile).
Defined.

(** After a successful [set_setting], a key path that parts ways with the
    one that was set reads as before. *)
Lemma get_setting_off_path key_path value yim_version w w' q default other :
  version_key_of other = version_key_of yim_version →
  set_setting key_path value yim_version w = (Ok true, w') →
  diverge (split_dot q) (split_dot key_path) = true →
  (get_setting q default other w').1 = (get_setting q default other w).1.
Proof.
  intros Hk Hset Hdiv.
  destruct (get_setting_after_set _ _ _ _ _ Hset)
    as (doc & doc' & Hdoc & Ha & _ & Hafter).
  rewrite (Hafter _ _ _ Hk), get_setting_fetched, Hk, Hdoc.
  f_equal. by apply (assign_frame _ _ _ _ _ _ Ha).
Qed.

(** X4.  A successful [set_setting] changes, in its installation, only what
    is read along its own key path: every key path that parts ways with it
    gives the same [get_setting] result as before. *)
Theorem set_setting_keeps_other_keys
    key_path value yim_version w w' q default :
  set_setting key_path value yim_version w = (Ok true, w') →
  diverge (split_dot q) (split_dot key_path) = true →
  (get_setting q default yim_version w').1
  = (get_setting q default yim_version w).1.
Proof. by apply get_setting_off_path. Qed.

Lemma set_setting_keeps_other_keys_witness :
  let w := flag_set_world in
  let w' := (set_setting "lua.auto_reload_scripts" (JBool true) "v1" w).2 in
  set_setting "lua.auto_reload_scripts" (JBool true) "v1" w = (Ok true, w') ∧
  diverge (split_dot "theme.light_mode") (split_dot "lua.auto_reload_scripts")
    = true ∧
  (get_setting "theme.light_mode" JNull "v1" w').1
  = (get_setting "theme.light_mode" JNull "v1" w).1.
Proof.
  intros w w'.
  assert (H1 : set_setting "lua.auto_reload_scripts" (JBool true) "v1" w
               = (Ok true, w')) by (vm_compute; reflexivity).
  assert (H2 : diverge (split_dot "theme.light_mode")
                 (split_dot "lua.auto_reload_scripts") = true) by reflexivity.
  exact (conj H1 (conj H2
           (set_setting_keeps_other_keys _ _ _ _ _ "theme.light_mode" JNull
              H1 H2))).
Defined.

(** X5.  When the document is not a mapping at its root (an array, a
    string, a number, [null]), [set_setting] returns [False] for every key
    path and value, logs the [TypeError] as an error, and writes nothing. *)
Theorem set_setting_fails_on_non_mapping key_path value yim_version w doc :
  fetched (version_key_of yim_version) w = Ok doc →
  isinstance_dict doc = false →
  ∃ w',
    set_setting key_path value yim_version w = (Ok false, w')
    ∧ files w' = files w
    ∧ (∃ rest, log w' = log_error_traversing yim_version TypeError :: rest)
    ∧ ∀ e, e ∈ io w' → e ∈ io w ∨ e = io_open_r (_get_file_path yim_version).
Proof.
  intros Hdoc Hd.
  destruct (fetched_Ok _ _ _ Hdoc) as (data & w1 & Hf & Hdata).
  rewrite set_setting_cases, Hf, Hdata.
  rewrite assign_not_dict by (done || apply split_dot_nonempty).
  destruct (_get_settings_with_cache_effect _ _ _ _ Hf) as (Hfs & _).
  eexists. split; [reflexivity|]. split_and!; [done|by eexists|].
  intros e He. cbn in He.
  destruct (_get_settings_with_cache_cases yim_version w)
    as [[_ Hc]|[(f & _ & _ & _ & Hc)|(f & Hfile & _ & Hc)]];
    rewrite Hf in Hc.
  - inversion Hc; subst. by left.
  - inversion Hc; subst. by left.
  - destruct (_read_json_safely_frame _ _ _ Hfile) as (Hio & _).
    destruct (_read_json_safely _ w) as [[r|e'] w2]; [|done].
    inversion Hc; subst. cbn in He, Hio. rewrite Hio in He.
    apply elem_of_cons in He as [->|He]; [by right|by left].
Qed.

Lemma set_setting_fails_on_non_mapping_witness :
  fetched (version_key_of "v1") array_world = Ok (JList [JNum 1; JNum 2]) ∧
  isinstance_dict (JList [JNum 1; JNum 2]) = false ∧
  ∃ w',
    set_setting "a" (JNum 3) "v1" array_world = (Ok false, w')
    ∧ files w' = files array_world.
Proof.
  assert (H1 : fetched (version_key_of "v1") array_world
               = Ok (JList [JNum 1; JNum 2])) by (vm_compute; reflexivity).
  assert (H2 : isinstance_dict (JList [JNum 1; JNum 2]) = false)
    by reflexivity.
  refine (conj H1 (conj H2 _)).
  destruct (set_setting_fails_on_non_mapping "a" (JNum 3) "v1" array_world _
              H1 H2) as (w' & Hset & Hfiles & _).
  exists w'. exact (conj Hset Hfiles).
Defined.

(** X6.  [get_setting] only reads: it leaves every file, the write
    permissions and the clock as they are, does not touch the cache entry of
    the other installation, and opens at most the settings file of its own
    installation, once, for reading. *)
Theorem get_setting_only_reads key_path default yim_version w :
  let k := version_key_of yim_version in
  let p := _get_file_path yim_version in
  let w1 := (get_setting key_path default yim_version w).2 in
  files w1 = files w
  ∧ unwritable w1 = unwritable w ∧ unreadable w1 = unreadable w
  ∧ now w1 = now w
  ∧ (∀ k', k' ≠ k →
       pv_get (_settings_cache w1) k' = pv_get (_settings_cache w) k'
       ∧ pv_get (_last_modified w1) k' = pv_get (_last_modified w) k')
  ∧ (io w1 = io w ∨ io w1 = io_open_r p :: io w).
Proof.
  intros k p w1.
  assert (Hw1 : w1 = (_get_settings_with_cache yim_version w).2).
  { unfold w1. rewrite get_setting_unfold.
    by destruct (_get_settings_with_cache yim_version w) as [[]]. }
  rewrite Hw1. clear w1 Hw1.
  destruct (_get_settings_with_cache yim_version w) as [r w1] eqn:Hf.
  destruct (_get_settings_with_cache_effect _ _ _ _ Hf)
    as (Hfs & Hu & Hu' & Hn & _ & Hother & _).
  cbn [snd]. split_and!; try done.
  destruct (_get_settings_with_cache_cases yim_version w)
    as [[_ Hc]|[(f & _ & _ & _ & Hc)|(f & Hfile & _ & Hc)]];
    rewrite Hf in Hc.
  - inversion Hc; subst. by left.
  - inversion Hc; subst. by left.
  - right. destruct (_read_json_safely_frame _ _ _ Hfile) as (Hio & _).
    destruct (_read_json_safely _ w) as [[r'|e'] w2];
      inversion Hc; by subst.
Qed.

(** X7.  After a [get_setting] that returned a value from an existing file
    and left an entry in the cache, the same call again returns the same
    value and changes nothing: the file is not opened a second time. *)
Theorem get_setting_again key_path default yim_version f w v w1 :
  let k := version_key_of yim_version in
  files w !! _get_file_path yim_version = Some f →
  get_setting key_path default yim_version w = (Ok v, w1) →
  pv_get (_settings_cache w1) k ≠ None →
  get_setting key_path default yim_version w1 = (Ok v, w1).
Proof.
  intros k Hfile. rewrite !get_setting_unfold.
  destruct (_get_settings_with_cache yim_version w) as [[data|e] w1'] eqn:Hf;
    [|done].
  intros [= <- <-] Hc.
  destruct (_get_settings_with_cache_stamp _ _ _ _ _ Hfile Hf)
    as (Hm & Hdata & Hfs & _).
  rewrite (_get_settings_with_cache_hit yim_version f w1').
  - fold k. fold k in Hdata. by rewrite Hdata.
  - by rewrite Hfs.
  - done.
  - done.
Qed.

Lemma get_setting_again_witness :
  let w := lua_true_world in
  let w1 := (get_setting "lua" JNull "v1" w).2 in
  files w !! _get_file_path "v1"
    = Some (File (Json (JDict [("lua", JBool true)])) 7) ∧
  get_setting "lua" JNull "v1" w = (Ok (JBool true), w1) ∧
  pv_get (_settings_cache w1) v1 ≠ None ∧
  get_setting "lua" JNull "v1" w1 = (Ok (JBool true), w1).
Proof.
  intros w w1.
  assert (H1 : files w !! _get_file_path "v1"
               = Some (File (Json (JDict [("lua", JBool true)])) 7))
    by (vm_compute; reflexivity).
  assert (H2 : get_setting "lua" JNull "v1" w = (Ok (JBool true), w1))
    by (vm_compute; reflexivity).
  assert (H3 : pv_get (_settings_cache w1) (version_key_of "v1") ≠ None)
    by (by vm_compute).
  exact (conj H1 (conj H2 (conj H3
           (get_setting_again "lua" JNull "v1" _ w _ w1 H1 H2 H3)))).
Defined.

(** X8.  A settings file that holds the JSON value [null] is never cached:
    a read with an empty entry opens the file, returns [None] and leaves the
    entry empty, so that the next read finds the same situation and opens
    the file again; [get_setting] returns the default for every key. *)
Theorem null_document_is_never_cached key_path default yim_version f w :
  let k := version_key_of yim_version in
  let p := _get_file_path yim_version in
  let w1 := (_get_settings_with_cache yim_version w).2 in
  files w !! p = Some f →
  f_content f = Json JNull →
  p ∉ unreadable w →
  pv_get (_settings_cache w) k = None →
  _get_settings_with_cache yim_version w = (Ok None, w1)
  ∧ io w1 = io_open_r p :: io w
  ∧ files w1 !! p = Some f
  ∧ (p ∉ unreadable w1)
  ∧ pv_get (_settings_cache w1) k = None
  ∧ get_setting key_path default yim_version w = (Ok default, w1).
Proof.
  intros k p w1 Hf Hnull Hr Hc.
  assert (Hfetch : _get_settings_with_cache yim_version w
    = (Ok None,
       with_last_modified
         (with_cache (with_io w (io_open_r p :: io w))
            (pv_set (_settings_cache w) k None))
         (pv_set (_last_modified w) k (f_mtime f)))).
  { rewrite (_get_settings_with_cache_refresh _ f) by auto.
    rewrite (_read_json_safely_exists _ f) by done. fold p k.
    rewrite bool_decide_eq_false_2 by done. by rewrite Hnull. }
  unfold w1. rewrite get_setting_unfold, Hfetch. cbn [snd].
  split_and!; try done.
  - cbn. by rewrite pv_get_set_eq.
  - cbn [deref]. destruct (split_dot key_path) as [|key keys] eqn:Hs.
    + by destruct (split_dot_nonempty key_path).
    + by rewrite found_or_not_dict.
Qed.

Lemma null_document_is_never_cached_witness :
  let p := _get_file_path "v1" in
  let w := null_world in
  let w1 := (_get_settings_with_cache "v1" w).2 in
  let w2 := (_get_settings_with_cache "v1" w1).2 in
  files w !! p = Some (File (Json JNull) 7) ∧
  (p ∉ unreadable w) ∧
  pv_get (_settings_cache w) v1 = None ∧
  io w1 = io_open_r p :: io w ∧
  io w2 = io_open_r p :: io w1.
Proof.
  intros p w w1 w2.
  assert (H1 : files w !! _get_file_path "v1" = Some (File (Json JNull) 7))
    by (vm_compute; reflexivity).
  assert (H2 : _get_file_path "v1" ∉ unreadable w) by (by vm_compute).
  assert (H3 : pv_get (_settings_cache w) (version_key_of "v1") = None)
    by reflexivity.
  destruct (null_document_is_never_cached "x" JNull "v1" _ w H1 eq_refl H2 H3)
    as (_ & Hio & H1' & H2' & H3' & _).
  destruct (null_document_is_never_cached "x" JNull "v1" _ w1 H1' eq_refl
              H2' H3') as (_ & Hio' & _).
  exact (conj H1 (conj H2 (conj H3 (conj Hio Hio')))).
Defined.



(** X10.  [set_setting] never returns silently: when it returns [False] the
    record it logged last is an error, and when it returns [True] it is the
    information that the file was written. *)
Theorem set_setting_logs_its_outcome key_path value yim_version w ok w' :
  set_setting key_path value yim_version w = (Ok ok, w') →
  ∃ r rest,
    log w' = r :: rest
    ∧ log_level r = (if ok then INFO else ERROR).
Proof.
  rewrite set_setting_cases.
  destruct (_get_settings_with_cache yim_version w) as [[data|e] w1]; [|done].
  destruct (assign _ _ _) as [d'|e].
  - repeat case_bool_decide; intros [= <- <-]; by eexists _, _.
  - intros [= <- <-]. by eexists _, _.
Qed.

Lemma set_setting_logs_its_outcome_witness :
  let w' := (set_setting "a" (JNum 3) "v1" array_world).2 in
  set_setting "a" (JNum 3) "v1" array_world = (Ok false, w') ∧
  ∃ r rest, log w' = r :: rest ∧ log_level r = ERROR.
Proof.
  intros w'.
  assert (H : set_setting "a" (JNum 3) "v1" array_world = (Ok false, w'))
    by (vm_compute; reflexivity).
  exact (conj H (set_setting_logs_its_outcome _ _ _ _ _ _ H)).
Defined.

(** ** The accessors of the two flags *)

Lemma get_setting_on_path key_path value yim_version w w' default other :
  version_key_of other = version_key_of yim_version →
  set_setting key_path value yim_version w = (Ok true, w') →
  (get_setting key_path default other w').1 = Ok value.
Proof.
  intros Hk Hset.
  destruct (get_setting_after_set _ _ _ _ _ Hset)
    as (doc & doc' & _ & Ha & _ & Hget).
  rewrite (Hget _ _ _ Hk). unfold found_or.
  by rewrite (traverse_assign _ _ _ _ Ha).
Qed.

(** [set_setting] does not change what the file system permits. *)
Lemma set_setting_permissions key_path value yim_version w :
  unwritable (set_setting key_path value yim_version w).2 = unwritable w.
Proof.
  rewrite set_setting_cases.
  destruct (_get_settings_with_cache yim_version w) as [[data|e] w1] eqn:Hf;
    destruct (_get_settings_with_cache_effect _ _ _ _ Hf) as (_ & _ & Hu & _);
    [|done].
  destruct (assign _ _ _) as [d'|e]; [|done].
  repeat case_bool_decide; by destruct data.
Qed.

(** X11.  The two flags are set independently, as the docstrings of
    [set_auto_reload_changed_scripts] and [get_auto_reload_changed_scripts]
    say: a successful write of one of them leaves the other one reading as
    before. *)
Theorem auto_reload_flags_independent value yim_version w w' :
  (set_auto_reload_changed_scripts value yim_version w = (Ok true, w') →
   (get_auto_reload_scripts yim_version w').1
   = (get_auto_reload_scripts yim_version w).1)
  ∧ (set_auto_reload_scripts value yim_version w = (Ok true, w') →
     (get_auto_reload_changed_scripts yim_version w').1
     = (get_auto_reload_changed_scripts yim_version w).1).
Proof.
  split; intros Hset;
    by apply (get_setting_off_path _ _ _ _ _ _ _ _ eq_refl Hset).
Qed.

Lemma auto_reload_flags_independent_witness :
  let w := flag_set_world in
  let w' := (set_auto_reload_scripts (JBool true) "v2" w).2 in
  set_auto_reload_scripts (JBool true) "v2" w = (Ok true, w') ∧
  (get_auto_reload_changed_scripts "v2" w').1 = Ok (JBool false).
Proof.
  intros w w'.
  assert (H : set_auto_reload_scripts (JBool true) "v2" w = (Ok true, w'))
    by (vm_compute; reflexivity).
  split; [exact H|].
  rewrite (proj2 (auto_reload_flags_independent (JBool true) "v2" w w') H).
  vm_compute. reflexivity.
Defined.

(** X12.  [set_auto_reload_setting], the function kept for compatibility,
    writes both flags: when it returns [True], [auto_reload_scripts] and
    [auto_reload_changed_scripts] both read as the value. *)
Theorem set_auto_reload_setting_sets_both value yim_version w w' :
  set_auto_reload_setting value yim_version w = (Ok true, w') →
  (get_auto_reload_scripts yim_version w').1 = Ok value
  ∧ (get_auto_reload_changed_scripts yim_version w').1 = Ok value
  ∧ (get_auto_reload_setting yim_version w').1 = Ok value.
Proof.
  unfold set_auto_reload_setting, bind, ret.
  destruct (set_setting "lua.auto_reload_scripts" value yim_version w)
    as [[s1|e] w1] eqn:H1; [|done].
  destruct (set_setting "lua.auto_reload_changed_scripts" value yim_version w1)
    as [[s2|e] w2] eqn:H2; [|done].
  intros [= Hs <-]. apply andb_true_iff in Hs as [-> ->].
  assert (Hb : (get_auto_reload_changed_scripts yim_version w2).1 = Ok value)
    by (by apply (get_setting_on_path _ _ _ _ _ _ _ eq_refl H2)).
  split_and!; try done.
  unfold get_auto_reload_scripts.
  rewrite (get_setting_off_path _ _ _ _ _ "lua.auto_reload_scripts"
             (JBool false) _ eq_refl H2) by reflexivity.
  by apply (get_setting_on_path _ _ _ _ _ _ _ eq_refl H1).
Qed.

Lemma set_auto_reload_setting_sets_both_witness :
  let w' := (set_auto_reload_setting (JBool true) "v1" fresh_world).2 in
  set_auto_reload_setting (JBool true) "v1" fresh_world = (Ok true, w') ∧
  (get_auto_reload_scripts "v1" w').1 = Ok (JBool true) ∧
  (get_auto_reload_changed_scripts "v1" w').1 = Ok (JBool true).
Proof.
  intros w'.
  assert (H : set_auto_reload_setting (JBool true) "v1" fresh_world
              = (Ok true, w')) by (vm_compute; reflexivity).
  destruct (set_auto_reload_setting_sets_both _ _ _ _ H) as (Ha & Hb & _).
  exact (conj H (conj Ha Hb)).
Defined.

(** X13.  When [set_both_auto_reload_settings] returns [True],
    [get_both_auto_reload_settings] returns the two values, each under its
    own version. *)
Theorem set_both_then_get_both v1_value v2_value w w' :
  wf w →
  set_both_auto_reload_settings v1_value v2_value w = (Ok true, w') →
  (get_both_auto_reload_settings w').1 = Ok (PerVersion v1_value v2_value).
Proof.
  intros Hwf. unfold set_both_auto_reload_settings, bind, ret.
  unfold set_auto_reload_changed_scripts.
  destruct (set_setting _ v1_value "v1" w) as [[s1|e] w1] eqn:H1; [|done].
  destruct (set_setting _ v2_value "v2" w1) as [[s2|e] w2] eqn:H2; [|done].
  intros [= Hs <-]. apply andb_true_iff in Hs as [-> ->].
  destruct (set_setting_wf _ _ _ _ _ _ Hwf H1) as [Hwf1 _].
  destruct (set_setting_wf _ _ _ _ _ _ Hwf1 H2) as [Hwf2 Hsame2].
  assert (Ha : (get_auto_reload_changed_scripts "v1" w2).1 = Ok v1_value).
  { unfold get_auto_reload_changed_scripts. rewrite get_setting_fetched.
    rewrite (fetched_same_installation _ w1 w2) by (by apply Hsame2).
    rewrite <- get_setting_fetched.
    by apply (get_setting_on_path _ _ _ _ _ _ _ eq_refl H1). }
  unfold get_both_auto_reload_settings, bind, ret.
  destruct (get_auto_reload_changed_scripts "v1" w2) as [[a|e] w3] eqn:H3;
    cbn in Ha; [|done]. inversion Ha; subst a.
  destruct (get_setting_wf _ _ _ _ _ _ Hwf2 H3) as [_ Hsame3].
  assert (Hb : (get_auto_reload_changed_scripts "v2" w3).1 = Ok v2_value).
  { unfold get_auto_reload_changed_scripts. rewrite get_setting_fetched.
    rewrite (fetched_same_installation _ w2 w3) by (by apply Hsame3).
    rewrite <- get_setting_fetched.
    by apply (get_setting_on_path _ _ _ _ _ _ _ eq_refl H2). }
  destruct (get_auto_reload_changed_scripts "v2" w3) as [[b|e] w4];
    cbn in Hb; [|done]. by inversion Hb.
Qed.

Lemma set_both_then_get_both_witness :
  let w := flag_set_world in
  let w' := (set_both_auto_reload_settings (JBool false) (JBool true) w).2 in
  wf w ∧
  set_both_auto_reload_settings (JBool false) (JBool true) w = (Ok true, w') ∧
  (get_both_auto_reload_settings w').1
  = Ok (PerVersion (JBool false) (JBool true)).
Proof.
  intros w w'.
  assert (H1 : wf w).
  { intros k l H. destruct k; vm_compute in H; inversion H; subst l;
      (split; [vm_compute; lia|]); intros k' Hk'; destruct k'; try done;
      vm_compute; discriminate. }
  assert (H2 : set_both_auto_reload_settings (JBool false) (JBool true) w
               = (Ok true, w')) by (vm_compute; reflexivity).
  exact (conj H1 (conj H2 (set_both_then_get_both _ _ _ _ H1 H2))).
Defined.

(** With a document that can be fetched and a write that is refused,
    [set_setting] returns [False]. *)
Lemma set_setting_refused key_path value yim_version w doc :
  let p := _get_file_path yim_version in
  fetched (version_key_of yim_version) w = Ok doc →
  dot_tmp p ∈ unwritable w ∨ p ∈ unwritable w →
  (set_setting key_path value yim_version w).1 = Ok false.
Proof.
  intros p Hdoc Hdenied.
  destruct (fetched_Ok _ _ _ Hdoc) as (data & w1 & Hf & _).
  rewrite set_setting_cases, Hf. fold p.
  destruct (assign _ _ _) as [d'|e]; [|done].
  case_bool_decide; [done|].
  destruct Hdenied as [|H2]; [done|].
  by rewrite bool_decide_eq_true_2.
Qed.

(** X14.  [set_both_auto_reload_settings] does not undo the first write when
    the second one fails: with the file of YimMenuV2 refused by the file
    system, it returns [False], and the flag of YimMenu has the new value
    all the same. *)
Theorem set_both_keeps_first_write v1_value v2_value w m doc2 :
  let p1 := YIMMENU_SETTINGS_FILE_PATH in
  let p2 := YIMMENUV2_SETTINGS_FILE_PATH in
  wf w →
  fetched v1 w = Ok (JDict m) →
  dot_tmp p1 ∉ unwritable w → p1 ∉ unwritable w →
  fetched v2 w = Ok doc2 →
  dot_tmp p2 ∈ unwritable w ∨ p2 ∈ unwritable w →
  ∃ w',
    set_both_auto_reload_settings v1_value v2_value w = (Ok false, w')
    ∧ (get_auto_reload_changed_scripts "v1" w').1 = Ok v1_value.
Proof.
  intros p1 p2 Hwf Hd1 Hw1 Hw1' Hd2 Hdenied.
  unfold set_both_auto_reload_settings, bind, ret,
    set_auto_reload_changed_scripts.
  destruct (set_setting_Ok_true "lua.auto_reload_changed_scripts" v1_value
              "v1" w m Hd1 Hw1 Hw1') as (w1 & doc' & H1 & _).
  rewrite H1.
  destruct (set_setting_wf _ _ _ _ _ _ Hwf H1) as [Hwf1 Hsame1].
  assert (Hd2' : fetched (version_key_of "v2") w1 = Ok doc2).
  { rewrite (fetched_same_installation _ w w1); [done|]. by apply Hsame1. }
  assert (Hu : unwritable w1 = unwritable w).
  { pose proof (set_setting_permissions "lua.auto_reload_changed_scripts"
                  v1_value "v1" w) as Hp. by rewrite H1 in Hp. }
  pose proof (set_setting_refused "lua.auto_reload_changed_scripts" v2_value
                "v2" w1 doc2 Hd2') as H2.
  rewrite Hu in H2. specialize (H2 Hdenied).
  destruct (set_setting _ v2_value "v2" w1) as [[s2|e] w2] eqn:Hset2;
    cbn in H2; [|done]. inversion H2; subst s2.
  exists w2. split; [done|].
  destruct (set_setting_wf _ _ _ _ _ _ Hwf1 Hset2) as [_ Hsame2].
  unfold get_auto_reload_changed_scripts. rewrite get_setting_fetched.
  rewrite (fetched_same_installation _ w1 w2) by (by apply Hsame2).
  rewrite <- get_setting_fetched.
  by apply (get_setting_on_path _ _ _ _ _ _ _ eq_refl H1).
Qed.

Lemma set_both_keeps_first_write_witness :
  let w := protect YIMMENUV2_SETTINGS_FILE_PATH flag_set_world in
  wf w ∧
  (∃ m, fetched v1 w = Ok (JDict m)) ∧
  (dot_tmp YIMMENU_SETTINGS_FILE_PATH ∉ unwritable w) ∧
  (YIMMENU_SETTINGS_FILE_PATH ∉ unwritable w) ∧
  (∃ doc2, fetched v2 w = Ok doc2) ∧
  YIMMENUV2_SETTINGS_FILE_PATH ∈ unwritable w ∧
  ∃ w',
    set_both_auto_reload_settings (JBool false) (JBool true) w = (Ok false, w')
    ∧ (get_auto_reload_changed_scripts "v1" w').1 = Ok (JBool false).
Proof.
  intros w.
  assert (H1 : wf w).
  { intros k l H. destruct k; vm_compute in H; inversion H; subst l;
      (split; [vm_compute; lia|]); intros k' Hk'; destruct k'; try done;
      vm_compute; discriminate. }
  assert (H2 : ∃ m, fetched v1 w = Ok (JDict m))
    by (eexists; vm_compute; reflexivity).
  assert (H3 : dot_tmp YIMMENU_SETTINGS_FILE_PATH ∉ unwritable w)
    by (by vm_compute).
  assert (H4 : YIMMENU_SETTINGS_FILE_PATH ∉ unwritable w) by (by vm_compute).
  assert (H5 : ∃ doc2, fetched v2 w = Ok doc2)
    by (eexists; vm_compute; reflexivity).
  assert (H6 : YIMMENUV2_SETTINGS_FILE_PATH ∈ unwritable w)
    by (by vm_compute).
  refine (conj H1 (conj H2 (conj H3 (conj H4 (conj H5 (conj H6 _)))))).
  destruct H2 as [m H2]. destruct H5 as [doc2 H5].
  exact (set_both_keeps_first_write (JBool false) (JBool true) w m doc2
           H1 H2 H3 H4 H5 (or_intror H6)).
Defined.

(** * Further properties of the script folders *)

Module LuaMore.
Import Lua LuaFacts.

Section moves.
Implicit Types (w : world) (p q : fspath) (n : node) (name : string).

(** What [os.makedirs] leaves alone: regular files, and everything outside
    the first directory of the path. *)
Lemma mkdirs_keeps_files p : ∀ n n' q data,
  mkdirs n p = Ok n' →
  lookup_path n q = Some (NFile data) → lookup_path n' q = Some (NFile data).
Proof.
  induction p as [|c p IH]; intros n n' q data Hm Hq.
  - destruct n; [done|]. cbn in Hm. by inversion Hm.
  - destruct n as [|es]; [done|]. cbn in Hm.
    destruct (mkdirs _ p) as [r|] eqn:Hr; [|done].
    inversion Hm; subst. destruct q as [|b q]; [done|].
    rewrite lookup_path_cons in *.
    destruct (String.eqb_spec b c) as [->|Hne].
    + rewrite entry_get_set_eq.
      destruct (entry_get es c) as [n0|]; [|done]. by eapply IH.
    + by rewrite entry_get_set_ne.
Qed.

Lemma shutil_move_inv src dst w w' :
  shutil_move src dst w = (Ok tt, w') →
  let real_dst :=
    if is_dir (lookup_path (root w) dst)
    then os_path_join dst (os_path_basename src) else dst in
  ∃ n, lookup_path (root w) src = Some n
       ∧ (src ∉ locked w) ∧ (real_dst ∉ locked w)
       ∧ w' = World (put_path (put_path (root w) src None) real_dst (Some n))
                    (locked w) (log w).
Proof.
  unfold shutil_move.
  destruct (lookup_path (root w) src) as [n|]; [|done].
  set (real_dst := if is_dir (lookup_path (root w) dst)
                   then os_path_join dst (os_path_basename src) else dst).
  destruct (is_dir (lookup_path (root w) dst)
            && bool_decide (is_Some (lookup_path (root w) real_dst)));
    [done|].
  destruct (bool_decide (src ∈ locked w)) eqn:H1; [done|].
  destruct (bool_decide (real_dst ∈ locked w)) eqn:H2; [done|]. cbn [orb].
  destruct (is_dir (Some n)
            && bool_decide (is_Some (lookup_path (root w) real_dst)));
    [done|].
  intros [= <-]. exists n.
  apply bool_decide_eq_false in H1, H2. done.
Qed.

Lemma shutil_move_raise src dst w e w' :
  shutil_move src dst w = (Raise e, w') → e = OSError ∧ w' = w.
Proof.
  unfold shutil_move.
  destruct (lookup_path (root w) src) as [n|]; [|by intros [= <- <-]].
  repeat (match goal with
          | |- context [if ?b then _ else _] => destruct b
          end; [by intros [= <- <-]|]).
  done.
Qed.

(** A regular file moved onto a free path. *)
Lemma shutil_move_run src dst data w :
  lookup_path (root w) src = Some (NFile data) →
  lookup_path (root w) dst = None →
  src ∉ locked w → dst ∉ locked w →
  shutil_move src dst w =
    (Ok tt,
     World (put_path (put_path (root w) src None) dst (Some (NFile data)))
           (locked w) (log w)).
Proof.
  intros Hs Hd H1 H2. unfold shutil_move. rewrite Hs, Hd. cbn.
  by rewrite !bool_decide_eq_false_2 by done.
Qed.

Lemma mkdirs_raise p : ∀ n e, mkdirs n p = Raise e → e = OSError.
Proof.
  induction p as [|c p IH]; intros n e; destruct n as [|es]; cbn;
    try by intros [= <-].
  destruct (mkdirs _ p) as [r|e'] eqn:Hr; [done|].
  intros [= <-]. by eapply IH.
Qed.

End moves.

Section toggles.
Implicit Types (w : world) (filename version : string).


(** [enable_script], case by case. *)
Lemma enable_script_cases filename version w :
  let name := (filename ++ ".lua")%string in
  let S := (dirs_of version).1 in
  let src := os_path_join (os_path_join S "disabled") name in
  let dest := os_path_join S name in
  match lookup_path (root w) src with
  | None =>
      enable_script filename version w =
        (Ok false,
         World (root w) (locked w)
               (error_cannot_enable name version :: log w))
  | Some _ =>
      match shutil_move src dest w with
      | (Ok _, w1) =>
          enable_script filename version w =
            (Ok true,
             World (root w1) (locked w1) (info_enabled name version :: log w1))
      | (Raise e, _) =>
          enable_script filename version w =
            (Ok false,
             World (root w) (locked w)
                   (exception_enabling name version OSError :: log w))
      end
  end.
Proof.
  intros name S src dest.
  pose proof (dirs_of_disabled version) as HD. fold S in HD.
  pose proof (enable_script_absent filename version w) as Habs.
  cbn zeta in Habs. rewrite HD in Habs. fold name src in Habs.
  destruct (lookup_path (root w) src) as [n|] eqn:Hsrc; [clear Habs|auto].
  assert (Hrun : enable_script filename version w =
    try_except
      (shutil_move src dest ;;;
       Lua.logger (info_enabled name version) ;;;
       ret true)
      is_OSError
      (fun e => Lua.logger (exception_enabling name version e) ;;;
                ret false) w).
  { unfold enable_script. subst src dest S.
    destruct (dirs_of version) as [S D]. cbn [fst snd] in *. subst D.
    fold name. unfold bind at 1, os_path_exists at 1. rewrite Hsrc.
    rewrite bool_decide_eq_true_2 by eauto. cbn [negb].
    rewrite os_path_dirname_join.
    destruct (lookup_path_parent _ _ _ _ Hsrc) as [des HD'].
    destruct (lookup_path_parent _ _ _ _ HD') as [es HS].
    unfold try_except, bind at 1, os_makedirs.
    by rewrite (mkdirs_id _ _ _ HS), world_eta. }
  rewrite Hrun. unfold try_except, bind.
  destruct (shutil_move _ _ w) as [[[]|e] w1] eqn:Hmove; [done|].
  apply shutil_move_raise in Hmove as [-> ->]. done.
Qed.

(** [disable_script], case by case. *)
Lemma disable_script_cases filename version w :
  let name := (filename ++ ".lua")%string in
  let S := (dirs_of version).1 in
  let src := os_path_join S name in
  let dest := os_path_join (os_path_join S "disabled") name in
  match lookup_path (root w) src with
  | None =>
      disable_script filename version w =
        (Ok false,
         World (root w) (locked w)
               (error_cannot_disable name version :: log w))
  | Some _ =>
      match mkdirs (root w) (os_path_join S "disabled") with
      | Raise _ =>
          disable_script filename version w =
            (Ok false,
             World (root w) (locked w)
                   (exception_disabling name version OSError :: log w))
      | Ok r1 =>
          match shutil_move src dest (World r1 (locked w) (log w)) with
          | (Ok _, w1) =>
              disable_script filename version w =
                (Ok true,
                 World (root w1) (locked w1)
                       (info_disabled name version :: log w1))
          | (Raise e, _) =>
              disable_script filename version w =
                (Ok false,
                 World r1 (locked w) 
                       (exception_disabling name version OSError :: log w))
          end
      end
  end.
Proof.
  intros name S src dest.
  pose proof (dirs_of_disabled version) as HD. fold S in HD.
  pose proof (disable_script_absent filename version w) as Habs.
  cbn zeta in Habs. fold S name src in Habs.
  destruct (lookup_path (root w) src) as [n|] eqn:Hsrc; [clear Habs|auto].
  assert (Hrun : disable_script filename version w =
    try_except
      (os_makedirs (os_path_join S "disabled") ;;;
       shutil_move src dest ;;;
       Lua.logger (info_disabled name version) ;;;
       ret true)
      is_OSError
      (fun e => Lua.logger (exception_disabling name version e) ;;;
                ret false) w).
  { unfold disable_script. subst src dest S.
    destruct (dirs_of version) as [S D]. cbn [fst snd] in *. subst D.
    fold name. unfold bind at 1, os_path_exists at 1. rewrite Hsrc.
    rewrite bool_decide_eq_true_2 by eauto. cbn [negb].
    by rewrite os_path_dirname_join. }
  rewrite Hrun. unfold try_except, bind, os_makedirs.
  destruct (mkdirs (root w) (os_path_join S "disabled")) as [r1|e] eqn:Hmk.
  2:{ apply mkdirs_raise in Hmk as ->. done. }
  destruct (shutil_move _ _ _) as [[[]|e] w1] eqn:Hmove; [done|].
  apply shutil_move_raise in Hmove as [-> ->]. done.
Qed.

Lemma diverge_head c c' p : c ≠ c' → diverge [c] (c' :: p) = true.
Proof. intros H. cbn. apply String.eqb_neq in H. by rewrite H. Qed.







End toggles.

Section round_trip.
Implicit Types (w : world) (filename version : string).

Lemma is_dir_Some (o : option node) :
  is_dir o = true → ∃ es, o = Some (NDir es).
Proof. destruct o as [[|es]|]; try done. by eexists. Qed.

(** X18.  Enabling a script, a regular file, whose name is free in the
    [scripts] folder and then disabling it puts it back: the second call
    returns [True] as well, the file is in the [disabled] folder with its
    content, its name is free again in the [scripts] folder, and every path
    that leads to neither place holds what it held. *)
Theorem enable_then_disable_restores filename version data w w1 :
  let name := (filename ++ ".lua")%string in
  let S := (dirs_of version).1 in
  let src := os_path_join (os_path_join S "disabled") name in
  let dest := os_path_join S name in
  lookup_path (root w) src = Some (NFile data) →
  lookup_path (root w) dest = None →
  enable_script filename version w = (Ok true, w1) →
  ∃ w2, disable_script filename version w1 = (Ok true, w2)
        ∧ lookup_path (root w2) src = Some (NFile data)
        ∧ lookup_path (root w2) dest = None
        ∧ ∀ q, diverge q src = true → diverge q dest = true →
               lookup_path (root w2) q = lookup_path (root w) q.
Proof.
  intros name S src dest Hsrc Hdest Hen.
  pose proof (enable_script_cases filename version w) as He.
  cbn zeta in He. fold S name src dest in He. rewrite Hsrc in He.
  destruct (shutil_move src dest w) as [[[]|e] w0] eqn:Hmove;
    rewrite He in Hen; [|done].
  injection Hen as <-.
  apply shutil_move_inv in Hmove as (n & Hn & Hl1 & Hl2 & ->).
  rewrite Hdest in Hl2. cbn [is_dir] in Hl2. rewrite Hdest. cbn [is_dir].
  rewrite Hsrc in Hn. injection Hn as <-. cbn [root locked log].
  set (r0 := put_path (root w) src None).
  set (r1 := put_path r0 dest (Some (NFile data))).
  destruct (lookup_path_parent _ _ _ _ Hsrc) as [des HD].
  destruct (lookup_path_parent _ _ _ _ HD) as [es HS].
  assert (Hdiv : diverge src dest = true).
  { unfold src, dest, os_path_join. rewrite <- !app_assoc. cbn [app].
    apply diverge_at. apply not_eq_sym, dot_lua_not_disabled. }
  assert (HdivD : diverge (os_path_join S "disabled") dest = true).
  { unfold dest, os_path_join. apply diverge_at.
    apply not_eq_sym, dot_lua_not_disabled. }
  assert (HS0 : ∃ es0, lookup_path r0 S = Some (NDir es0)).
  { apply is_dir_Some.
    unfold r0, src, os_path_join. rewrite <- !app_assoc. cbn [app].
    by eapply lookup_put_above. }
  destruct HS0 as [es0 HS0].
  assert (HD0 : ∃ ds0, lookup_path r0 (os_path_join S "disabled")
                       = Some (NDir ds0)).
  { apply is_dir_Some. unfold r0, src. unfold os_path_join at 1.
    by eapply lookup_put_above. }
  destruct HD0 as [ds0 HD0].
  assert (HD1 : lookup_path r1 (os_path_join S "disabled") = Some (NDir ds0)).
  { unfold r1. by rewrite lookup_put_diverge. }
  assert (Hdest1 : lookup_path r1 dest = Some (NFile data)).
  { unfold r1, dest. by eapply lookup_put_eq. }
  assert (Hsrc1 : lookup_path r1 src = None).
  { unfold r1. rewrite lookup_put_diverge by done.
    unfold r0, src. by eapply lookup_put_eq. }
  set (w1 := World r1 (locked w) (info_enabled name version :: log w)).
  pose proof (disable_script_cases filename version w1) as Hd.
  cbn zeta in Hd. fold S name src dest in Hd. cbn [root locked log w1] in Hd.
  rewrite Hdest1 in Hd. rewrite (mkdirs_id _ _ _ HD1) in Hd.
  erewrite (shutil_move_run dest src data) in Hd; [|done..].
  cbn [root locked log] in Hd. eexists. split; [exact Hd|]. cbn [root].
  assert (HS1 : ∃ es1, lookup_path r1 S = Some (NDir es1)).
  { destruct (lookup_path_parent _ _ _ _ HD1) as [es1 H]. by eexists. }
  destruct HS1 as [es1 HS1].
  assert (HD2 : lookup_path (put_path r1 dest None) (os_path_join S "disabled")
                = Some (NDir ds0)).
  { by rewrite lookup_put_diverge. }
  split_and!.
  - unfold src. by eapply lookup_put_eq.
  - rewrite lookup_put_diverge by (by rewrite diverge_sym).
    unfold dest. by eapply lookup_put_eq.
  - intros q Hq1 Hq2. rewrite !lookup_put_diverge by done.
    unfold r1, r0. by rewrite !lookup_put_diverge by done.
Qed.

Lemma enable_then_disable_restores_witness :
  let w := three_scripts_world in
  let w1 := (enable_script "b" "v1" w).2 in
  enable_script "b" "v1" w = (Ok true, w1)
  ∧ ∃ w2, disable_script "b" "v1" w1 = (Ok true, w2)
          ∧ lookup_path (root w2) (os_path_join DISABLED_SCRIPTS_PATH "b.lua")
            = Some (NFile "-- b")
          ∧ lookup_path (root w2) (os_path_join SCRIPTS_PATH "b.lua") = None.
Proof.
  intros w w1.
  assert (H1 : lookup_path (root w)
                 (os_path_join (os_path_join (dirs_of "v1").1 "disabled")
                    ("b" ++ ".lua")%string) = Some (NFile "-- b"))
    by reflexivity.
  assert (H2 : lookup_path (root w)
                 (os_path_join (dirs_of "v1").1 ("b" ++ ".lua")%string) = None)
    by reflexivity.
  assert (H3 : enable_script "b" "v1" w = (Ok true, w1))
    by (vm_compute; reflexivity).
  destruct (enable_then_disable_restores "b" "v1" "-- b" w w1 H1 H2 H3)
    as (w2 & Hd & Hs & Hn & _).
  split; [exact H3|]. exists w2. exact (conj Hd (conj Hs Hn)).
Defined.

End round_trip.

Section listings.
Implicit Types (w : world) (r : node) (filename version : string).

(** [get_scripts] on folders that exist. *)
Lemma get_scripts_of_folders version w es ds :
  let S := (dirs_of version).1 in
  let D := (dirs_of version).2 in
  lookup_path (root w) S = Some (NDir es) →
  lookup_path (root w) D = Some (NDir ds) →
  ∃ e d w',
    get_scripts version w = (Ok (Scripts e d), w')
    ∧ root w' = root w
    ∧ (∀ b, b ∈ e ↔
         is_file (lookup_path (root w) (os_path_join S (b ++ ".lua")%string))
         = true)
    ∧ (∀ b, b ∈ d ↔
         is_file (lookup_path (root w) (os_path_join D (b ++ ".lua")%string))
         = true).
Proof.
  intros S D HS HD.
  destruct (get_scripts_run version w (root w) (root w) es ds) as [l Hrun];
    try done; try by eapply mkdirs_id.
  eexists _, _, _. split; [exact Hrun|]. split_and!; [done|..].
  - intros b. by apply elem_of_display.
  - intros b. by apply elem_of_display.
Qed.

(** X19.  A script, a regular file, that [enable_script] has enabled is
    listed by [get_scripts] among the enabled scripts and not among the
    disabled ones, unless a directory had its name in the [scripts]
    folder. *)
Theorem enabled_script_is_listed filename version data w w1 :
  let name := (filename ++ ".lua")%string in
  let S := (dirs_of version).1 in
  let D := (dirs_of version).2 in
  lookup_path (root w) (os_path_join D name) = Some (NFile data) →
  is_dir (lookup_path (root w) (os_path_join S name)) = false →
  enable_script filename version w = (Ok true, w1) →
  ∃ e d w2, get_scripts version w1 = (Ok (Scripts e d), w2)
            ∧ filename ∈ e ∧ filename ∉ d.
Proof.
  intros name S D Hsrc Hdest Hen.
  pose proof (dirs_of_disabled version) as HDS. fold S D in HDS.
  pose proof (enable_script_cases filename version w) as He.
  cbn zeta in He. fold S name in He. unfold D in Hsrc. rewrite <- HDS in He.
  fold D in He, Hsrc. rewrite Hsrc in He.
  destruct (shutil_move _ _ w) as [[[]|e] w0] eqn:Hmove;
    rewrite He in Hen; [|done].
  injection Hen as <-.
  apply shutil_move_inv in Hmove as (n & Hn & _ & _ & ->).
  rewrite Hdest in *. rewrite Hsrc in Hn. injection Hn as <-.
  cbn [root locked log].
  set (r0 := put_path (root w) (os_path_join D name) None).
  set (r1 := put_path r0 (os_path_join S name) (Some (NFile data))).
  destruct (lookup_path_parent _ _ _ _ Hsrc) as [des HD].
  assert (HD' := HD). rewrite HDS in HD'.
  destruct (lookup_path_parent _ _ _ _ HD') as [es HS].
  assert (HdivD : diverge D (os_path_join S name) = true).
  { rewrite HDS. unfold os_path_join. apply diverge_at.
    apply not_eq_sym, dot_lua_not_disabled. }
  assert (Hdiv : diverge (os_path_join D name) (os_path_join S name) = true).
  { rewrite diverge_sym. change (os_path_join D name) with (D ++ [name]).
    apply diverge_app_r. by rewrite diverge_sym. }
  assert (HD0 : ∃ ds0, lookup_path r0 D = Some (NDir ds0)).
  { apply is_dir_Some. unfold r0, os_path_join. by eapply lookup_put_above. }
  destruct HD0 as [ds0 HD0].
  assert (HS0 : ∃ es0, lookup_path r0 S = Some (NDir es0)).
  { rewrite HDS in HD0. destruct (lookup_path_parent _ _ _ _ HD0) as [es0 H].
    by eexists. }
  destruct HS0 as [es0 HS0].
  assert (HD1 : lookup_path r1 D = Some (NDir ds0)).
  { unfold r1. by rewrite lookup_put_diverge. }
  assert (Hdest1 : lookup_path r1 (os_path_join S name) = Some (NFile data)).
  { unfold r1. by eapply lookup_put_eq. }
  assert (Hsrc1 : lookup_path r1 (os_path_join D name) = None).
  { unfold r1. rewrite lookup_put_diverge by done.
    unfold r0. by eapply lookup_put_eq. }
  assert (HS1 : ∃ es1, lookup_path r1 S = Some (NDir es1)).
  { destruct (lookup_path_parent _ _ _ _ Hdest1) as [es1 H]. by eexists. }
  destruct HS1 as [es1 HS1].
  set (w1 := World r1 (locked w) (info_enabled name version :: log w)).
  destruct (get_scripts_of_folders version w1 es1 ds0 HS1 HD1)
    as (e & d & w2 & Hrun & _ & He' & Hd').
  exists e, d, w2. split; [exact Hrun|]. split.
  - apply He'. cbn [root w1]. fold S name. by rewrite Hdest1.
  - rewrite Hd'. cbn [root w1]. fold D name. by rewrite Hsrc1.
Qed.

Lemma enabled_script_is_listed_witness :
  let w := three_scripts_world in
  let w1 := (enable_script "b" "v1" w).2 in
  enable_script "b" "v1" w = (Ok true, w1)
  ∧ ∃ e d w2, get_scripts "v1" w1 = (Ok (Scripts e d), w2)
              ∧ "b"%string ∈ e ∧ "b"%string ∉ d.
Proof.
  intros w w1.
  assert (H1 : lookup_path (root w)
                 (os_path_join (dirs_of "v1").2 ("b" ++ ".lua")%string)
               = Some (NFile "-- b")) by reflexivity.
  assert (H2 : is_dir (lookup_path (root w)
                 (os_path_join (dirs_of "v1").1 ("b" ++ ".lua")%string))
               = false) by reflexivity.
  assert (H3 : enable_script "b" "v1" w = (Ok true, w1))
    by (vm_compute; reflexivity).
  exact (conj H3 (enabled_script_is_listed "b" "v1" "-- b" w w1 H1 H2 H3)).
Defined.

(** X20.  A script, a regular file, that [disable_script] has disabled is
    listed by [get_scripts] among the disabled scripts and not among the
    enabled ones, unless a directory had its name in the [disabled]
    folder. *)
Theorem disabled_script_is_listed filename version data w w1 :
  let name := (filename ++ ".lua")%string in
  let S := (dirs_of version).1 in
  let D := (dirs_of version).2 in
  lookup_path (root w) (os_path_join S name) = Some (NFile data) →
  is_dir (lookup_path (root w) (os_path_join D name)) = false →
  disable_script filename version w = (Ok true, w1) →
  ∃ e d w2, get_scripts version w1 = (Ok (Scripts e d), w2)
            ∧ filename ∈ d ∧ filename ∉ e.
Proof.
  intros name S D Hsrc Hdest Hdis.
  pose proof (dirs_of_disabled version) as HDS. fold S D in HDS.
  destruct (disable_script_true _ _ _ _ Hdis)
    as (n & Hn & Hgone & _ & Hsame).
  fold S D name in Hn, Hgone, Hsame.
  rewrite Hsrc in Hn. injection Hn as <-.
  specialize (Hsame Hdest).
  destruct (lookup_path_parent _ _ _ _ Hsame) as [ds HD].
  assert (HD' := HD). rewrite HDS in HD'.
  destruct (lookup_path_parent _ _ _ _ HD') as [es HS].
  destruct (get_scripts_of_folders version w1 es ds HS HD)
    as (e & d & w2 & Hrun & _ & He' & Hd').
  exists e, d, w2. split; [exact Hrun|]. split.
  - apply Hd'. fold D name. by rewrite Hsame.
  - rewrite He'. fold S name. by rewrite Hgone.
Qed.

Lemma disabled_script_is_listed_witness :
  let w := three_scripts_world in
  let w1 := (disable_script "a" "v1" w).2 in
  disable_script "a" "v1" w = (Ok true, w1)
  ∧ ∃ e d w2, get_scripts "v1" w1 = (Ok (Scripts e d), w2)
              ∧ "a"%string ∈ d ∧ "a"%string ∉ e.
Proof.
  intros w w1.
  assert (H1 : lookup_path (root w)
                 (os_path_join (dirs_of "v1").1 ("a" ++ ".lua")%string)
               = Some (NFile "-- a")) by reflexivity.
  assert (H2 : is_dir (lookup_path (root w)
                 (os_path_join (dirs_of "v1").2 ("a" ++ ".lua")%string))
               = false) by reflexivity.
  assert (H3 : disable_script "a" "v1" w = (Ok true, w1))
    by (vm_compute; reflexivity).
  exact (conj H3 (disabled_script_is_listed "a" "v1" "-- a" w w1 H1 H2 H3)).
Defined.



Lemma _get_lua_files_Ok dir w :
  ∃ l, _get_lua_files dir w = (Ok l, w).
Proof.
  destruct (lookup_path (root w) dir) as [[|es]|] eqn:Hd.
  - exists []. unfold _get_lua_files, bind, os_path_isdir. by rewrite Hd.
  - eexists. by apply _get_lua_files_run.
  - exists []. unfold _get_lua_files, bind, os_path_isdir. by rewrite Hd.
Qed.

(** [get_scripts], by the outcome of its two calls of [os.makedirs]. *)
Lemma get_scripts_cases version w :
  let S := (dirs_of version).1 in
  let D := (dirs_of version).2 in
  match mkdirs (root w) S with
  | Raise _ => (get_scripts version w).1 = Raise OSError
  | Ok r1 =>
      match mkdirs r1 D with
      | Raise _ => (get_scripts version w).1 = Raise OSError
      | Ok r2 =>
          ∃ es ds l,
            lookup_path r2 S = Some (NDir es)
            ∧ lookup_path r2 D = Some (NDir ds)
            ∧ get_scripts version w =
                (Ok (Scripts (display (filter (is_lua_file r2 S) (es.*1)))
                             (display (filter (is_lua_file r2 D) (ds.*1)))),
                 World r2 (locked w) l)
      end
  end.
Proof.
  intros S D.
  pose proof (dirs_of_disabled version) as HDS. fold S D in HDS.
  destruct (mkdirs (root w) S) as [r1|e] eqn:H1.
  2:{ apply mkdirs_raise in H1 as H1'. subst e.
      unfold get_scripts. subst S D. destruct (dirs_of version) as [S D].
      cbn [fst snd] in *. unfold bind, Lua.logger, os_makedirs.
      cbn [root locked log]. by rewrite H1. }
  destruct (mkdirs r1 D) as [r2|e] eqn:H2.
  2:{ apply mkdirs_raise in H2 as H2'. subst e.
      unfold get_scripts. subst S D. destruct (dirs_of version) as [S D].
      cbn [fst snd] in *. unfold bind, Lua.logger, os_makedirs.
      cbn [root locked log]. rewrite H1. cbn [root locked log].
      by rewrite H2. }
  destruct (is_dir_Some _ (mkdirs_is_dir _ _ _ H2)) as [ds HD].
  assert (HD' := HD). rewrite HDS in HD'.
  destruct (lookup_path_parent _ _ _ _ HD') as [es HS].
  destruct (get_scripts_run version w r1 r2 es ds H1 H2 HS HD) as [l Hrun].
  by exists es, ds, l.
Qed.


(** X22.  When [get_scripts] returns, the two folders exist, every regular
    file is where it was with its content, and a second call returns the
    same two lists and changes nothing in the folders. *)
Theorem get_scripts_settles version w sc w1 :
  let S := (dirs_of version).1 in
  let D := (dirs_of version).2 in
  get_scripts version w = (Ok sc, w1) →
  is_dir (lookup_path (root w1) S) = true
  ∧ is_dir (lookup_path (root w1) D) = true
  ∧ (∀ q data, lookup_path (root w) q = Some (NFile data) →
               lookup_path (root w1) q = Some (NFile data))
  ∧ ∃ w2, get_scripts version w1 = (Ok sc, w2) ∧ root w2 = root w1.
Proof.
  intros S D Hrun.
  pose proof (get_scripts_cases version w) as Hc. cbn zeta in Hc.
  fold S D in Hc.
  destruct (mkdirs (root w) S) as [r1|e] eqn:H1.
  2:{ rewrite Hrun in Hc. done. }
  destruct (mkdirs r1 D) as [r2|e] eqn:H2.
  2:{ rewrite Hrun in Hc. done. }
  destruct Hc as (es & ds & l & HS & HD & Hrun').
  rewrite Hrun in Hrun'. injection Hrun' as -> ->. cbn [root].
  rewrite HS, HD. split_and!; try done.
  - intros q data Hq. eapply mkdirs_keeps_files; [exact H2|].
    by eapply mkdirs_keeps_files.
  - set (w1 := World r2 (locked w) l).
    destruct (get_scripts_run version w1 r2 r2 es ds) as [l' Hrun2];
      try done; try by eapply mkdirs_id.
    eexists. split; [exact Hrun2|done].
Qed.

Lemma get_scripts_settles_witness :
  let w := three_scripts_world in
  let w1 := (get_scripts "v2" w).2 in
  get_scripts "v2" w = (Ok (Scripts [] []), w1)
  ∧ lookup_path (root w) SCRIPTS_PATH_V2 = None
  ∧ is_dir (lookup_path (root w1) SCRIPTS_PATH_V2) = true
  ∧ is_dir (lookup_path (root w1) DISABLED_SCRIPTS_PATH_V2) = true
  ∧ ∃ w2, get_scripts "v2" w1 = (Ok (Scripts [] []), w2) ∧ root w2 = root w1.
Proof.
  intros w w1.
  assert (H1 : get_scripts "v2" w = (Ok (Scripts [] []), w1))
    by (vm_compute; reflexivity).
  destruct (get_scripts_settles "v2" w (Scripts [] []) w1 H1)
    as (HS & HD & _ & Hagain).
  exact (conj H1 (conj eq_refl (conj HS (conj HD Hagain)))).
Defined.


End listings.

End LuaMore.

(** ** Copying a script *)

Module LuaCopyFacts.
Import Lua LuaFacts LuaMore LuaCopy.

Section copy.
Implicit Types (w : Lua.world) (s : state) (p q : fspath).
Implicit Types (filename from_version to_version : string) (enabled : bool).

Lemma shutil_copy2_raise src dst w e w' :
  shutil_copy2 src dst w = (Raise e, w') → e = OSError ∧ w' = w.
Proof.
  unfold shutil_copy2.
  destruct (lookup_path (root w) src) as [[data|es]|];
    repeat (match goal with
            | |- context [if ?b then _ else _] => destruct b
            end; try by intros [= <- <-]);
    by intros [= <- <-].
Qed.

Lemma shutil_copy2_inv src dst w w' :
  shutil_copy2 src dst w = (Ok tt, w') →
  let real_dst :=
    if is_dir (lookup_path (root w) dst)
    then os_path_join dst (os_path_basename src) else dst in
  ∃ data, lookup_path (root w) src = Some (NFile data)
          ∧ src ≠ real_dst
          ∧ is_dir (lookup_path (root w) (os_path_dirname real_dst)) = true
          ∧ w' = Lua.World (put_path (root w) real_dst (Some (NFile data)))
                           (locked w) (log w).
Proof.
  unfold shutil_copy2.
  set (real_dst := if is_dir (lookup_path (root w) dst)
                   then os_path_join dst (os_path_basename src) else dst).
  destruct (lookup_path (root w) src) as [[data|es]|]; [| |done].
  - destruct (bool_decide (src = real_dst)) eqn:H1; [done|].
    destruct (is_dir (lookup_path (root w) real_dst)); [done|].
    destruct (is_dir (lookup_path (root w) (os_path_dirname real_dst)));
      [|done].
    cbn [negb]. destruct (bool_decide (real_dst ∈ locked w)); [done|].
    intros [= <-]. exists data. apply bool_decide_eq_false in H1. done.
  - by destruct (bool_decide (src = real_dst)).
Qed.

(** [shutil.copy2] of a path onto itself raises. *)
Lemma shutil_copy2_same p w : shutil_copy2 p p w = (Raise OSError, w).
Proof.
  unfold shutil_copy2.
  destruct (lookup_path (root w) p) as [[data|es]|]; [| |done].
  - cbn [is_dir]. by rewrite bool_decide_eq_true_2.
  - by destruct (bool_decide _).
Qed.

Lemma folder_of_head version enabled :
  ∃ c p, appdata_dir (get_script_paths version) = [c]
         ∧ folder_of version enabled = c :: p.
Proof.
  unfold folder_of, get_script_paths.
  destruct (String.eqb version "v2"), enabled; by eexists _, _.
Qed.

Lemma folder_of_eq from_version to_version enabled :
  in_v1_v2 from_version = true → in_v1_v2 to_version = true →
  appdata_dir (get_script_paths from_version)
    = appdata_dir (get_script_paths to_version) →
  from_version = to_version.
Proof.
  unfold in_v1_v2, get_script_paths.
  destruct (String.eqb_spec from_version "v2") as [->|H1],
           (String.eqb_spec to_version "v2") as [->|H2]; try done.
  rewrite !orb_false_r.
  by intros ->%String.eqb_eq ->%String.eqb_eq.
Qed.

(** [copy_script_between_versions] on two versions it accepts, case by
    case. *)
Lemma copy_script_cases filename from_version to_version enabled s :
  in_v1_v2 from_version = true → in_v1_v2 to_version = true →
  let name := (filename ++ ".lua")%string in
  let src := os_path_join (folder_of from_version enabled) name in
  let dest_dir := folder_of to_version enabled in
  let dest := os_path_join dest_dir name in
  let w := folders s in
  copy_script_between_versions filename from_version to_version enabled s =
    match lookup_path (root w) src with
    | None =>
        (Ok false,
         State w (error_not_found name from_version :: copy_log s))
    | Some _ =>
        match mkdirs (root w) dest_dir with
        | Raise _ =>
            (Ok false,
             State w (exception_copying name from_version to_version OSError
                        :: copy_log s))
        | Ok r1 =>
            match shutil_copy2 src dest (Lua.World r1 (locked w) (log w)) with
            | (Ok _, w1) =>
                (Ok true,
                 State w1 (info_copied name from_version to_version
                             :: copy_log s))
            | (Raise _, _) =>
                (Ok false,
                 State (Lua.World r1 (locked w) (log w))
                       (exception_copying name from_version to_version OSError
                          :: copy_log s))
            end
        end
    end.
Proof.
  intros Hf Ht name src dest_dir dest w.
  unfold copy_script_between_versions. rewrite Hf, Ht. cbn [negb orb].
  fold name. fold (folder_of from_version enabled).
  fold (folder_of to_version enabled). fold src dest_dir dest.
  unfold bind at 1, lift at 1, os_path_exists at 1. fold w.
  destruct (lookup_path (root w) src) as [n|] eqn:Hsrc; [|done].
  rewrite bool_decide_eq_true_2 by eauto. cbn [negb].
  unfold dest at 1. rewrite os_path_dirname_join.
  unfold try_except, bind, lift, os_makedirs. cbn [folders copy_log].
  fold w.
  destruct (mkdirs (root w) dest_dir) as [r1|e] eqn:Hmk.
  2:{ apply mkdirs_raise in Hmk as ->. cbn. by destruct s. }
  cbn [folders copy_log].
  destruct (shutil_copy2 src dest _) as [[[]|e] w1] eqn:Hcopy; [done|].
  apply shutil_copy2_raise in Hcopy as [-> ->]. done.
Qed.

Lemma copy_script_same_version filename version enabled s :
  ∃ s', copy_script_between_versions filename version version enabled s
          = (Ok false, s')
        ∧ root (folders s') = root (folders s).
Proof.
  destruct (in_v1_v2 version) eqn:Hv.
  2:{ unfold copy_script_between_versions. rewrite Hv. by eexists. }
  rewrite copy_script_cases by done. cbn zeta.
  set (src := os_path_join (folder_of version enabled) _).
  destruct (lookup_path (root (folders s)) src) as [n|] eqn:Hsrc;
    [|by eexists].
  destruct (lookup_path_parent _ _ _ _ Hsrc) as [es HS].
  rewrite (mkdirs_id _ _ _ HS), shutil_copy2_same. by eexists.
Qed.

(** X24.  [copy_script_between_versions] from an installation to itself
    never copies: whatever the name and the version, it returns [False]
    and leaves the folders as they are. *)
Theorem copy_to_same_version_fails filename version enabled s :
  ∃ s', copy_script_between_versions filename version version enabled s
          = (Ok false, s')
        ∧ root (folders s') = root (folders s).
Proof. apply copy_script_same_version. Qed.

(** X25.  When [copy_script_between_versions] returns [True], both versions
    are among [v1] and [v2], the source is a regular file that is still in
    its place with its content, the folder of the installation it was
    copied from is as it was, and the destination holds a file with the
    same content, unless a directory had that name. *)
Theorem copied_script_is_in_both filename from_version to_version enabled
    s s' :
  let name := (filename ++ ".lua")%string in
  let src := os_path_join (folder_of from_version enabled) name in
  let dest := os_path_join (folder_of to_version enabled) name in
  let home := appdata_dir (get_script_paths from_version) in
  copy_script_between_versions filename from_version to_version enabled s
    = (Ok true, s') →
  in_v1_v2 from_version = true ∧ in_v1_v2 to_version = true
  ∧ ∃ data,
      lookup_path (root (folders s)) src = Some (NFile data)
      ∧ lookup_path (root (folders s')) src = Some (NFile data)
      ∧ lookup_path (root (folders s')) home
        = lookup_path (root (folders s)) home
      ∧ (is_dir (lookup_path (root (folders s)) dest) = false →
         lookup_path (root (folders s')) dest = Some (NFile data)).
Proof.
  intros name src dest home Hrun.
  destruct (in_v1_v2 from_version) eqn:Hf.
  2:{ unfold copy_script_between_versions in Hrun. by rewrite Hf in Hrun. }
  destruct (in_v1_v2 to_version) eqn:Ht.
  2:{ unfold copy_script_between_versions in Hrun. rewrite Hf, Ht in Hrun.
      done. }
  destruct (decide (from_version = to_version)) as [->|Hne].
  { destruct (copy_script_same_version filename to_version enabled s)
      as (s0 & H0 & _). congruence. }
  split; [done|]. split; [done|].
  rewrite copy_script_cases in Hrun by done. cbn zeta in Hrun.
  fold name src dest in Hrun.
  destruct (lookup_path (root (folders s)) src) as [n|] eqn:Hsrc; [|done].
  destruct (mkdirs _ _) as [r1|e] eqn:Hmk; [|done].
  destruct (shutil_copy2 _ _ _) as [[[]|e] w1] eqn:Hcopy; [|done].
  injection Hrun as <-. cbn [folders].
  apply shutil_copy2_inv in Hcopy
    as (data & Hsrc1 & _ & Hparent & ->). cbn [root] in *.
  destruct (folder_of_head from_version enabled) as (c & p & Hc & Hp).
  destruct (folder_of_head to_version enabled) as (c' & p' & Hc' & Hp').
  assert (Hcc : c ≠ c').
  { intros ->. apply Hne. eapply folder_of_eq; try done. congruence. }
  assert (Hdir : lookup_path r1 dest = lookup_path (root (folders s)) dest).
  { unfold dest, os_path_join. by rewrite (mkdirs_below _ _ _ _ Hmk). }
  assert (Hd1 : diverge src (folder_of to_version enabled) = true).
  { unfold src, os_path_join. rewrite Hp, Hp'. cbn.
    apply String.eqb_neq in Hcc. by rewrite Hcc. }
  assert (Hsrc0 : lookup_path r1 src = lookup_path (root (folders s)) src).
  { by eapply mkdirs_diverge. }
  rewrite Hsrc0, Hsrc in Hsrc1. injection Hsrc1 as ->.
  set (real_dst := if is_dir (lookup_path r1 dest)
                   then os_path_join dest (os_path_basename src)
                   else dest) in *.
  assert (Hhead : ∃ q, real_dst = c' :: q).
  { unfold real_dst.
    destruct (is_dir (lookup_path r1 dest)); unfold dest, os_path_join;
      rewrite Hp'; cbn; by eexists. }
  destruct Hhead as [q Hq]. unfold home. rewrite Hc.
  exists data. split_and!; [done| | |].
  - rewrite lookup_put_diverge; [by rewrite Hsrc0|].
    rewrite Hq. unfold src, os_path_join. rewrite Hp. cbn.
    apply String.eqb_neq in Hcc. by rewrite Hcc.
  - rewrite lookup_put_diverge by (rewrite Hq; by apply diverge_head).
    eapply mkdirs_diverge; [exact Hmk|]. rewrite Hp'. by apply diverge_head.
  - intros Hnd. unfold real_dst in *. rewrite Hdir, Hnd in *.
    unfold dest in Hparent. rewrite os_path_dirname_join in Hparent.
    apply is_dir_Some in Hparent as [es Hes].
    unfold dest. by eapply lookup_put_eq.
Qed.

Lemma copied_script_is_in_both_witness :
  let s := State three_scripts_world [] in
  let s' := (copy_script_between_versions "a" "v1" "v2" true s).2 in
  copy_script_between_versions "a" "v1" "v2" true s = (Ok true, s')
  ∧ lookup_path (root (folders s')) (os_path_join SCRIPTS_PATH "a.lua")
    = Some (NFile "-- a")
  ∧ lookup_path (root (folders s')) (os_path_join SCRIPTS_PATH_V2 "a.lua")
    = Some (NFile "-- a").
Proof.
  intros s s'.
  assert (H1 : copy_script_between_versions "a" "v1" "v2" true s
               = (Ok true, s')) by (vm_compute; reflexivity).
  destruct (copied_script_is_in_both "a" "v1" "v2" true s s' H1)
    as (_ & _ & data & Hsrc & Hsrc' & _ & Hdest).
  assert (Hdata : data = "-- a"%string).
  { assert (H : lookup_path (root (folders s))
                  (os_path_join (folder_of "v1" true) ("a" ++ ".lua")%string)
                = Some (NFile "-- a")) by reflexivity.
    rewrite Hsrc in H. by injection H. }
  subst data.
  exact (conj H1 (conj Hsrc' (Hdest eq_refl))).
Defined.

End copy.
End LuaCopyFacts.
